(** * watchdog.py: file integrity monitor with log rotation and retention

    A shallow embedding of [watchdog.py].  The script watches a fixed set of
    directories, writes one log record per file event through Python's
    [logging] module into [LOG_FILE], compresses that file into a
    timestamped archive ([compress_log]), deletes old log files
    ([delete_old_logs]) and drives both from the loop of [main].

    Modelling choices:
    - a file's bytes are a sequence of segments: a text line written by the
      logging handler, or a whole gzip stream written by [gzip.open];
    - the directory [/var/log] is an association list in [os.listdir] order;
    - times ([time.time], [os.path.getmtime]) are exact integers (seconds);
    - Python exceptions are the [Raise] branch of [outcome];
    - the operating system's failures (permission denied, disk full) and the
      user's Ctrl-C are explicit inputs of the functions that can meet them. *)

From Stdlib Require Import ZArith Lia Bool Ascii String.
From stdpp Require Import base list strings.

Set Warnings "-register-all".

Local Open Scope string_scope.
Local Open Scope Z_scope.

(** ** Module-level constants *)

Definition LOG_DIR : string := "/var/log".
Definition LOG_BASENAME : string := "file_changes.log".
Definition LOG_FILE : string := "/var/log/file_changes.log".

Definition COMPRESS_INTERVAL : Z := 3600.
Definition LOG_RETENTION_DAYS : Z := 7.

Definition MODIFIED_ICON : string := "🔄".
Definition CREATED_ICON : string := "✨".
Definition DELETED_ICON : string := "❌".
Definition MOVED_ICON : string := "🔀".

(** ** File system events and [FileMonitorHandler] *)

Inductive event_kind := Created | Modified | Deleted | Moved.

(** The attributes of a watchdog [FileSystemEvent] that the handler reads.
    [dest_path] is only meaningful for [Moved] events. *)
Record event := {
  event_type : event_kind;
  src_path : string;
  dest_path : string;
  is_directory : bool
}.

(** Each handler method returns the messages it passes to [logging.info]. *)
Module FileMonitorHandler.

Definition on_modified (e : event) : list string :=
  if negb (is_directory e)
  then [MODIFIED_ICON ++ " Modified: " ++ src_path e]
  else [].

Definition on_created (e : event) : list string :=
  if negb (is_directory e)
  then [CREATED_ICON ++ " Created: " ++ src_path e]
  else [].

Definition on_deleted (e : event) : list string :=
  if negb (is_directory e)
  then [DELETED_ICON ++ " Deleted: " ++ src_path e]
  else [].

Definition on_moved (e : event) : list string :=
  if negb (is_directory e)
  then [MOVED_ICON ++ " Moved: " ++ src_path e ++ " to " ++ dest_path e]
  else [].

(** [FileSystemEventHandler.dispatch] calls the method of the event's type. *)
Definition dispatch (e : event) : list string :=
  match event_type e with
  | Created => on_created e
  | Modified => on_modified e
  | Deleted => on_deleted e
  | Moved => on_moved e
  end.

End FileMonitorHandler.

(** The icon and the word that the handler of each kind writes. *)
Definition kind_icon (k : event_kind) : string :=
  match k with
  | Created => CREATED_ICON
  | Modified => MODIFIED_ICON
  | Deleted => DELETED_ICON
  | Moved => MOVED_ICON
  end.

Definition kind_word (k : event_kind) : string :=
  match k with
  | Created => "Created"
  | Modified => "Modified"
  | Deleted => "Deleted"
  | Moved => "Moved"
  end.

(** [contains s t]: [t] occurs in [s] as a contiguous substring. *)
Definition contains (s t : string) : Prop :=
  exists pre post : string, s = pre ++ t ++ post.

(** ** [get_existing_paths] *)

Definition candidate_paths : list string :=
  ["/home"; "/etc"; "/root"; "/usr"; "/opt"].

(** The list comprehension [[path for path in paths if os.path.exists(path)]];
    [path_exists] is the answer of [os.path.exists] at the time of the call. *)
Fixpoint existing_among (path_exists : string -> bool) (paths : list string)
  : list string :=
  match paths with
  | [] => []
  | path :: rest =>
      if path_exists path
      then path :: existing_among path_exists rest
      else existing_among path_exists rest
  end.

Definition get_existing_paths (path_exists : string -> bool) : list string :=
  existing_among path_exists candidate_paths.

(** [R] is the subsequence of [P] made of the paths that exist: it is a
    subsequence, it holds existing paths only, and every subsequence of [P]
    of existing paths is a subsequence of it. *)
Definition existing_subsequence (path_exists : string -> bool)
  (P R : list string) : Prop :=
  sublist R P /\
  (forall p, p ∈ R <-> p ∈ P /\ path_exists p = true) /\
  (forall R', sublist R' P -> (forall p, p ∈ R' -> path_exists p = true) ->
              sublist R' R).

(** ** Files, the log directory and the clock *)

(** A file's bytes: the lines written by the logging handler (kept with the
    time of the write, which the format string renders as [%(asctime)s]) and
    gzip streams, each holding the bytes that were compressed into it. *)
Inductive segment :=
| Line (stamp : Z) (message : string)
| GzStream (plain : list segment).

Record node := {
  n_isfile : bool;          (* a regular file, not a directory *)
  n_mtime : Z;              (* os.path.getmtime *)
  n_data : list segment
}.

Definition regular (mtime : Z) (data : list segment) : node :=
  {| n_isfile := true; n_mtime := mtime; n_data := data |}.

(** A broken-down local time, as [datetime.now()] returns it. *)
Record datetime := {
  dt_year : Z; dt_month : Z; dt_day : Z;
  dt_hour : Z; dt_minute : Z; dt_second : Z
}.

Definition valid_datetime (d : datetime) : Prop :=
  1000 <= dt_year d <= 9999 /\ 1 <= dt_month d <= 12 /\ 1 <= dt_day d <= 31 /\
  0 <= dt_hour d <= 23 /\ 0 <= dt_minute d <= 59 /\ 0 <= dt_second d <= 59.

(** The part of the machine the script touches: the clock, the local
    calendar, and the entries of [/var/log] keyed by file name, in the order
    in which [os.listdir] reports them. *)
Record world := {
  w_time : Z;
  w_localtime : Z -> datetime;
  w_var_log : list (string * node)
}.

Definition set_var_log (d : list (string * node)) (w : world) : world :=
  {| w_time := w_time w; w_localtime := w_localtime w; w_var_log := d |}.

Definition set_time (t : Z) (w : world) : world :=
  {| w_time := t; w_localtime := w_localtime w; w_var_log := w_var_log w |}.

Definition datetime_now (w : world) : datetime := w_localtime w (w_time w).

(** *** Directory operations *)

Fixpoint dir_lookup (name : string) (d : list (string * node)) : option node :=
  match d with
  | [] => None
  | (k, n) :: rest => if String.eqb k name then Some n else dir_lookup name rest
  end.

Fixpoint dir_remove (name : string) (d : list (string * node))
  : list (string * node) :=
  match d with
  | [] => []
  | (k, n) :: rest =>
      if String.eqb k name then dir_remove name rest
      else (k, n) :: dir_remove name rest
  end.

(** Writing [n] under [name] replaces the entry in place when there is one
    and adds a new entry otherwise.  Where [os.listdir] reports a new entry
    depends on the file system; the model puts it last, and the theorem
    about the listing after a rotation states it up to its order. *)
Fixpoint dir_write (name : string) (n : node) (d : list (string * node))
  : list (string * node) :=
  match d with
  | [] => [(name, n)]
  | (k, m) :: rest =>
      if String.eqb k name then (k, n) :: rest
      else (k, m) :: dir_write name n rest
  end.

Definition listdir (w : world) : list string := map fst (w_var_log w).

(** [os.path.join] of a directory without trailing slash and a file name. *)
Definition path_join (dir name : string) : string := dir ++ "/" ++ name.

Fixpoint strip_prefix (p s : string) : option string :=
  match p with
  | EmptyString => Some s
  | String a p' =>
      match s with
      | EmptyString => None
      | String b s' => if Ascii.eqb a b then strip_prefix p' s' else None
      end
  end.

(** The entry of [/var/log] a path designates, when it lies there. *)
Definition var_log_key (path : string) : option string :=
  strip_prefix "/var/log/" path.

Definition stat (path : string) (w : world) : option node :=
  match var_log_key path with
  | Some name => dir_lookup name (w_var_log w)
  | None => None
  end.

Definition isfile (path : string) (w : world) : bool :=
  match stat path w with
  | Some n => n_isfile n
  | None => false
  end.

(** ** Exceptions *)

Inductive exn :=
| FileNotFoundError | IsADirectoryError | PermissionError | DiskFull
| KeyboardInterrupt.

(** [KeyboardInterrupt] derives from [BaseException], the others from
    [Exception]. *)
Definition is_Exception (e : exn) : bool :=
  match e with KeyboardInterrupt => false | _ => true end.

(** The [strerror] part of [str(e)]; for an error of [open] or [os.remove]
    Python adds the file name after it. *)
Definition exn_str (e : exn) : string :=
  match e with
  | FileNotFoundError => "[Errno 2] No such file or directory"
  | IsADirectoryError => "[Errno 21] Is a directory"
  | PermissionError => "[Errno 13] Permission denied"
  | DiskFull => "[Errno 28] No space left on device"
  | KeyboardInterrupt => ""
  end.

Inductive outcome :=
| Return (w : world)
| Raise (e : exn) (w : world).

Definition final_world (o : outcome) : world :=
  match o with Return w => w | Raise _ w => w end.

Definition bind (o : outcome) (k : world -> outcome) : outcome :=
  match o with
  | Return w => k w
  | Raise e w => Raise e w
  end.

Notation "o >>> k" := (bind o k) (at level 50, left associativity).

(** ** The logging handler *)

(** [logging.basicConfig(filename=LOG_FILE)] opens [LOG_FILE] for appending
    once, when the module is loaded.  Each record is written and flushed at
    once, which also sets the file's modification time.  The handler keeps
    its stream: once the entry is unlinked the writes reach the orphaned
    file only and nothing shows under the path any more.  The handler never
    raises ([logging] reports its own errors on stderr). *)
Definition log_emit (msg : string) (w : world) : world :=
  match dir_lookup LOG_BASENAME (w_var_log w) with
  | Some n =>
      if n_isfile n then
        set_var_log
          (dir_write LOG_BASENAME
             (regular (w_time w) (n_data n ++ [Line (w_time w) msg])%list)
             (w_var_log w)) w
      else w
  | None => w
  end.

Definition logging_info := log_emit.
Definition logging_error := log_emit.

(** The lines of the live log, as a reader of [LOG_FILE] sees them. *)
Definition live_log (w : world) : list segment :=
  match stat LOG_FILE w with
  | Some n => n_data n
  | None => []
  end.

(** ** [compress_log] *)

(** [strftime("%Y%m%d_%H%M%S")]: every field is a zero-padded decimal. *)
Definition digit_of (d : Z) : ascii := ascii_of_nat (Z.to_nat (48 + d)).

Definition pad2 (n : Z) : string :=
  String (digit_of (n / 10)) (String (digit_of (n mod 10)) EmptyString).

Definition pad4 (n : Z) : string := pad2 (n / 100) ++ pad2 (n mod 100).

Definition strftime (d : datetime) : string :=
  pad4 (dt_year d) ++ pad2 (dt_month d) ++ pad2 (dt_day d) ++ "_" ++
  pad2 (dt_hour d) ++ pad2 (dt_minute d) ++ pad2 (dt_second d).

Definition is_digit (c : ascii) : bool :=
  (48 <=? nat_of_ascii c)%nat && (nat_of_ascii c <=? 57)%nat.

(** The shape [YYYYMMDD_HHMMSS]: eight digits, an underscore, six digits. *)
Definition is_YYYYMMDD_HHMMSS (s : string) : bool :=
  match s with
  | String y1 (String y2 (String y3 (String y4 (String m1 (String m2
    (String d1 (String d2 (String u (String h1 (String h2 (String i1
    (String i2 (String s1 (String s2 EmptyString)))))))))))))) =>
      forallb is_digit [y1; y2; y3; y4; m1; m2; d1; d2; h1; h2; i1; i2; s1; s2]
      && Ascii.eqb u "_"
  | _ => false
  end.

(** Reading a timestamp back: the value of a digit, of a pair of digits, and
    the date and time that the fifteen characters spell. *)
Definition digit_value (c : ascii) : Z := Z.of_nat (nat_of_ascii c) - 48.

Definition two_digits (a b : ascii) : Z := 10 * digit_value a + digit_value b.

Definition read_stamp (s : string) : option datetime :=
  match s with
  | String y1 (String y2 (String y3 (String y4 (String m1 (String m2
    (String d1 (String d2 (String _ (String h1 (String h2 (String i1
    (String i2 (String s1 (String s2 EmptyString)))))))))))))) =>
      Some {| dt_year := 100 * two_digits y1 y2 + two_digits y3 y4;
              dt_month := two_digits m1 m2;
              dt_day := two_digits d1 d2;
              dt_hour := two_digits h1 h2;
              dt_minute := two_digits i1 i2;
              dt_second := two_digits s1 s2 |}
  | _ => None
  end.

(** The name of the archive: [f"{LOG_FILE}_{timestamp}.gz"]. *)
Definition compressed_log_name (w : world) : string :=
  LOG_FILE ++ "_" ++ strftime (datetime_now w) ++ ".gz".

(** The archive's entry in [/var/log]. *)
Definition archive_basename (w : world) : string :=
  LOG_BASENAME ++ "_" ++ strftime (datetime_now w) ++ ".gz".

(** What the operating system can refuse during one rotation: opening the
    live log for reading, creating the archive, a write while copying (after
    [written] segments went through), reopening the live log for writing. *)
Inductive rotation_fault :=
| AtOpenLog (e : exn)
| AtOpenArchive (e : exn)
| AtCopy (written : nat) (e : exn)
| AtTruncate (e : exn).

(** [open(path, "rb")] followed by reading the whole file. *)
Definition open_rb (flt : option rotation_fault) (path : string) (w : world)
  : exn + list segment :=
  match flt with
  | Some (AtOpenLog e) => inl e
  | _ =>
      match stat path w with
      | None => inl FileNotFoundError
      | Some n => if n_isfile n then inr (n_data n) else inl IsADirectoryError
      end
  end.

(** Create or overwrite the file at [path] with [data]. *)
Definition write_file (path : string) (data : list segment) (w : world)
  : outcome :=
  match var_log_key path with
  | None => Raise FileNotFoundError w
  | Some name =>
      match dir_lookup name (w_var_log w) with
      | Some n =>
          if n_isfile n then
            Return (set_var_log
                      (dir_write name (regular (w_time w) data) (w_var_log w))
                      w)
          else Raise IsADirectoryError w
      | None =>
          Return (set_var_log
                    (dir_write name (regular (w_time w) data) (w_var_log w))
                    w)
      end
  end.

(** The two nested [with] blocks: read [LOG_FILE], write its bytes through
    [gzip.open(compressed_log, "wb")].  A failure while copying leaves the
    archive with the part already written. *)
Definition archive_step (flt : option rotation_fault) (compressed_log : string)
  (w : world) : outcome :=
  match open_rb flt LOG_FILE w with
  | inl e => Raise e w
  | inr data =>
      match flt with
      | Some (AtOpenArchive e) => Raise e w
      | Some (AtCopy written e) =>
          write_file compressed_log [GzStream (take written data)] w
          >>> Raise e
      | _ => write_file compressed_log [GzStream data] w
      end
  end.

(** [open(LOG_FILE, 'w').close()]. *)
Definition truncate_step (flt : option rotation_fault) (w : world) : outcome :=
  match flt with
  | Some (AtTruncate e) => Raise e w
  | _ => write_file LOG_FILE [] w
  end.

Definition announce_step (compressed_log : string) (w : world) : outcome :=
  Return (logging_info ("Log compressed and saved as: " ++ compressed_log) w).

Definition compress_log (flt : option rotation_fault) (w : world) : outcome :=
  let compressed_log := compressed_log_name w in
  archive_step flt compressed_log w
  >>> truncate_step flt
  >>> announce_step compressed_log.

(** ** [delete_old_logs] *)

Definition startswith (s p : string) : bool := String.prefix p s.

(** [os.remove]: [denied path] is the error the system answers with, if any. *)
Definition os_remove (denied : string -> option exn) (path : string) (w : world)
  : outcome :=
  match denied path with
  | Some e => Raise e w
  | None =>
      match var_log_key path with
      | None => Raise FileNotFoundError w
      | Some name =>
          match dir_lookup name (w_var_log w) with
          | None => Raise FileNotFoundError w
          | Some _ => Return (set_var_log (dir_remove name (w_var_log w)) w)
          end
      end
  end.

(** [os.path.getmtime].  The loop calls it right after [os.path.isfile] has
    answered [True] for the same path, so the path is there. *)
Definition getmtime (path : string) (w : world) : Z :=
  match stat path w with
  | Some n => n_mtime n
  | None => 0
  end.

(** The body of the [for] loop for one [filename]. *)
Definition sweep_one (denied : string -> option exn) (current_time : Z)
  (filename : string) (w : world) : outcome :=
  if startswith filename "file_changes.log" then
    let file_path := path_join "/var/log" filename in
    if isfile file_path w then
      let file_mod_time := getmtime file_path w in
      if current_time - file_mod_time >? LOG_RETENTION_DAYS * 86400 then
        os_remove denied file_path w
        >>> (fun w' =>
               Return (logging_info ("Deleted old log file: " ++ file_path) w'))
      else Return w
    else Return w
  else Return w.

Fixpoint sweep_loop (denied : string -> option exn) (current_time : Z)
  (filenames : list string) (w : world) : outcome :=
  match filenames with
  | [] => Return w
  | filename :: rest =>
      sweep_one denied current_time filename w
      >>> sweep_loop denied current_time rest
  end.

Definition delete_old_logs (denied : string -> option exn) (w : world)
  : outcome :=
  let current_time := w_time w in
  sweep_loop denied current_time (listdir w) w.

(** ** [main] *)

Inductive call :=
| Schedule (path : string) | ObserverStart | ObserverStop | ObserverJoin
| CompressLog | Sleep | DeleteOldLogs | LogError | LogStopped.

(** One entry of the trace of [main]: the call, the clock when it starts and
    the exception it ends with, if any. *)
Record step := { s_call : call; s_at : Z; s_raised : option exn }.

Definition raised (o : outcome) : option exn :=
  match o with Return _ => None | Raise e _ => Some e end.

Definition record_call (c : call) (w : world) (o : outcome) : step :=
  {| s_call := c; s_at := w_time w; s_raised := raised o |}.

Inductive phase := InCompress | InSleep | InSweep.

Definition phase_eqb (p q : phase) : bool :=
  match p, q with
  | InCompress, InCompress | InSleep, InSleep | InSweep, InSweep => true
  | _, _ => false
  end.

(** What the outside world does during one pass through the loop: the
    failure it opposes to the rotation, the files it refuses to delete, and
    the call during which Ctrl-C arrives, if it does.  The interrupt is
    delivered as the call starts; a Ctrl-C in the middle of a call, and what
    the observer's threads log in the meantime, are not modelled, and the
    properties about an interrupt speak of the calls made and of the files
    the handlers do not write. *)
Record tick := {
  t_fault : option rotation_fault;
  t_denied : string -> option exn;
  t_interrupt : option phase
}.

Definition interruptible (t : tick) (p : phase) (f : world -> outcome)
  (w : world) : outcome :=
  match t_interrupt t with
  | Some q => if phase_eqb p q then Raise KeyboardInterrupt w else f w
  | None => f w
  end.

(** [time.sleep(secs)] returns once [secs] seconds have passed.  The clock
    of the model is idealised: the sleep lasts exactly [secs] seconds and
    the other calls take no time, where the real ones last at least that
    long and take some time.  A clock reading in a property below is a
    reading of this clock; the order of the calls does not depend on it. *)
Definition time_sleep (secs : Z) (w : world) : outcome :=
  Return (set_time (w_time w + secs) w).

(** The body of the [try]: the calls it starts, in order, and how it ends. *)
Definition try_body (t : tick) (w : world) : list step * outcome :=
  let o1 := interruptible t InCompress (compress_log (t_fault t)) w in
  match o1 with
  | Raise _ _ => ([record_call CompressLog w o1], o1)
  | Return w1 =>
      let o2 := interruptible t InSleep (time_sleep COMPRESS_INTERVAL) w1 in
      match o2 with
      | Raise _ _ => ([record_call CompressLog w o1; record_call Sleep w1 o2], o2)
      | Return w2 =>
          let o3 := interruptible t InSweep (delete_old_logs (t_denied t)) w2 in
          ([record_call CompressLog w o1; record_call Sleep w1 o2;
            record_call DeleteOldLogs w2 o3], o3)
      end
  end.

(** One pass through [while True]: the trace, the world afterwards and
    whether the loop goes on ([false] after [break]). *)
Definition main_iter (t : tick) (w : world) : list step * world * bool :=
  match try_body t w with
  | (tr, Return w') => (tr, w', true)
  | (tr, Raise e w') =>
      if is_Exception e then
        let w'' := logging_error ("Error: " ++ exn_str e) w' in
        ((tr ++ [record_call LogError w' (Return w'')])%list, w'', true)
      else
        let w'' := logging_info "❌ File Integrity Monitoring Stopped!" w' in
        ((tr ++ [record_call ObserverStop w' (Return w');
                 record_call LogStopped w' (Return w'')])%list, w'', false)
  end.

(** The loop, observed for as many passes as there are ticks. *)
Fixpoint main_loop (ticks : list tick) (w : world) : list step * world * bool :=
  match ticks with
  | [] => ([], w, true)
  | t :: rest =>
      match main_iter t w with
      | (tr, w', true) =>
          match main_loop rest w' with
          | (tr', w'', go) => ((tr ++ tr')%list, w'', go)
          end
      | (tr, w', false) => (tr, w', false)
      end
  end.

Definition main (path_exists : string -> bool) (ticks : list tick) (w : world)
  : list step * world :=
  let scheduled :=
    map (fun path => record_call (Schedule path) w (Return w))
        (get_existing_paths path_exists) in
  let w0 := logging_info "📢 File Integrity Monitoring Started!" w in
  match main_loop ticks w0 with
  | (tr, w', true) =>
      ((scheduled ++ [record_call ObserverStart w (Return w)] ++ tr)%list, w')
  | (tr, w', false) =>
      ((scheduled ++ [record_call ObserverStart w (Return w)] ++ tr
          ++ [record_call ObserverJoin w' (Return w')])%list, w')
  end.


(** ** Sample worlds *)

(** A calendar for the examples: the clock read as the time of day, in UTC,
    on 17 May 2024. *)
Definition sample_localtime (t : Z) : datetime :=
  {| dt_year := 2024; dt_month := 5; dt_day := 17;
     dt_hour := (t / 3600) mod 24; dt_minute := (t / 60) mod 60;
     dt_second := t mod 60 |}.

Definition day : Z := 86400.

(** A log directory at time [1000000]: the live log with two records, written
    ten seconds ago, and a file of another program. *)
Definition sample_world : world :=
  {| w_time := 1000000;
     w_localtime := sample_localtime;
     w_var_log :=
       [("file_changes.log",
         regular 999990 [Line 999980 "✨ Created: /etc/motd";
                         Line 999990 "🔄 Modified: /etc/motd"]);
        ("syslog", regular 999999 [])] |}.

Definition no_denial (path : string) : option exn := None.

Definition quiet_tick : tick :=
  {| t_fault := None; t_denied := no_denial; t_interrupt := None |}.

(** The three tests of the loop of [delete_old_logs] taken together: the
    name starts with the log's base name, the path is a regular file, and its
    modification time lies more than the retention time before
    [current_time]. *)
Definition expired (current_time : Z) (w : world) (filename : string) : bool :=
  startswith filename "file_changes.log"
  && isfile (path_join "/var/log" filename) w
  && (current_time - getmtime (path_join "/var/log" filename) w
      >? LOG_RETENTION_DAYS * 86400).

Definition retention_window : Z := LOG_RETENTION_DAYS * 86400.

(** A log directory at time [1715940000] with an archive of eight days, an
    archive of six days, the live log written ten seconds ago and an old
    file of another program. *)
Definition sweep_world : world :=
  {| w_time := 1715940000;
     w_localtime := sample_localtime;
     w_var_log :=
       [("file_changes.log_20240509_100000.gz",
         regular (1715940000 - 8 * day) [GzStream [Line 1715000000 "a"]]);
        ("file_changes.log_20240511_100000.gz",
         regular (1715940000 - 6 * day) [GzStream [Line 1715300000 "b"]]);
        ("file_changes.log", regular (1715940000 - 10) [Line 1715939990 "c"]);
        ("syslog", regular (1715940000 - 30 * day) [])] |}.

(** The same moment, with a live log that nothing has written to for eight
    days, listed after an archive of eight days. *)
Definition stale_live_world : world :=
  {| w_time := 1715940000;
     w_localtime := sample_localtime;
     w_var_log :=
       [("file_changes.log_20240509_100000.gz",
         regular (1715940000 - 8 * day) [GzStream [Line 1715000000 "a"]]);
        ("file_changes.log",
         regular (1715940000 - 8 * day) [Line 1715248800 "c"])] |}.

(** A stale live log listed first. *)
Definition stale_live_first_world : world :=
  {| w_time := 1715940000;
     w_localtime := sample_localtime;
     w_var_log :=
       [("file_changes.log",
         regular (1715940000 - 30 * day) [Line 1713348000 "c"]);
        ("file_changes.log_20240509_100000.gz",
         regular (1715940000 - 8 * day) [GzStream [Line 1715000000 "a"]])] |}.

(** A stale live log listed after a recent archive and an old one. *)
Definition stale_live_last_world : world :=
  {| w_time := 1715940000;
     w_localtime := sample_localtime;
     w_var_log :=
       [("file_changes.log_20240516_100000.gz",
         regular (1715940000 - 1 * day) [GzStream []]);
        ("file_changes.log_20240401_100000.gz",
         regular (1715940000 - 46 * day) [GzStream []]);
        ("file_changes.log",
         regular (1715940000 - 30 * day) [Line 1713348000 "c"])] |}.

(** Two archives past the retention time. *)
Definition two_old_archives_world : world :=
  {| w_time := 1715940000;
     w_localtime := sample_localtime;
     w_var_log :=
       [("file_changes.log", regular (1715940000 - 10) [Line 1715939990 "c"]);
        ("file_changes.log_20240501_100000.gz",
         regular (1715940000 - 16 * day) [GzStream []]);
        ("file_changes.log_20240502_100000.gz",
         regular (1715940000 - 15 * day) [GzStream []])] |}.

(** The system refuses to delete the first of them. *)
Definition deny_first_archive (path : string) : option exn :=
  if String.eqb path "/var/log/file_changes.log_20240501_100000.gz"
  then Some PermissionError else None.


Definition trace_of (r : list step * world * bool) : list step := fst (fst r).
Definition world_of (r : list step * world * bool) : world := snd (fst r).
Definition goes_on (r : list step * world * bool) : bool := snd r.

(** A pass during which the live log cannot be opened for reading. *)
Definition unreadable_tick : tick :=
  {| t_fault := Some (AtOpenLog PermissionError);
     t_denied := no_denial; t_interrupt := None |}.

(** ** The rotation running beside the event handlers

    The observer threads log while [compress_log] runs, and the script takes
    no lock.  The steps of [compress_log] on the live log are: opening the
    two files; the reads of [shutil.copyfileobj], each taking up to
    [bufsize] further records from the current offset and writing them to
    the archive, until a read returns nothing; the truncation; the notice.
    Between any two of them a handler may append a record.  The handler's
    stream is in append mode, so a record written after the truncation
    lands at the new end of the file. *)
Module Interleaving.

Inductive pc :=
| NotStarted
| Copying (offset : nat)
| Copied
| Truncated
| Finished.

Record state := {
  live : list segment;       (* the records in LOG_FILE *)
  archive : list segment;    (* the records written to the archive *)
  at_pc : pc
}.

(** One move of the schedule: a handler appends a record, or the rotation
    takes its next step. *)
Inductive action := Append (l : segment) | Rotate.

Definition start (live0 : list segment) : state :=
  {| live := live0; archive := []; at_pc := NotStarted |}.

Section Run.

Variable bufsize : nat.
Variable notice : segment.

Definition rotate (s : state) : state :=
  match at_pc s with
  | NotStarted =>
      {| live := live s; archive := []; at_pc := Copying 0 |}
  | Copying offset =>
      match take bufsize (drop offset (live s)) with
      | [] => {| live := live s; archive := archive s; at_pc := Copied |}
      | buf =>
          {| live := live s; archive := (archive s ++ buf)%list;
             at_pc := Copying (offset + length buf) |}
      end
  | Copied => {| live := []; archive := archive s; at_pc := Truncated |}
  | Truncated =>
      {| live := (live s ++ [notice])%list; archive := archive s;
         at_pc := Finished |}
  | Finished => s
  end.

Definition step (a : action) (s : state) : state :=
  match a with
  | Append l =>
      {| live := (live s ++ [l])%list; archive := archive s;
         at_pc := at_pc s |}
  | Rotate => rotate s
  end.

Fixpoint run (sched : list action) (s : state) : state :=
  match sched with
  | [] => s
  | a :: rest => run rest (step a s)
  end.

(** The records an action writes to the live log. *)
Definition written_by (a : action) (s : state) : list segment :=
  match a, at_pc s with
  | Append l, _ => [l]
  | Rotate, Truncated => [notice]
  | Rotate, _ => []
  end.

(** The records appended after the copy has met the end of the file and
    before the truncation. *)
Definition lost_by (a : action) (s : state) : list segment :=
  match a, at_pc s with
  | Append l, Copied => [l]
  | _, _ => []
  end.

Fixpoint written (sched : list action) (s : state) : list segment :=
  match sched with
  | [] => []
  | a :: rest => (written_by a s ++ written rest (step a s))%list
  end.

Fixpoint lost (sched : list action) (s : state) : list segment :=
  match sched with
  | [] => []
  | a :: rest => (lost_by a s ++ lost rest (step a s))%list
  end.

End Run.

(** The records of the burst: those the handlers append. *)
Fixpoint appended (sched : list action) : list segment :=
  match sched with
  | [] => []
  | Append l :: rest => l :: appended rest
  | Rotate :: rest => appended rest
  end.

(** The number of notices the rotation has logged. *)
Definition notices (p : pc) : nat :=
  match p with Finished => 1 | _ => 0 end.

Definition truncation_done (p : pc) : bool :=
  match p with Truncated | Finished => true | _ => false end.

(** What ties the state to the records written so far, [all], and to those
    lost so far, [gone]. *)
Definition consistent (s : state) (all gone : list segment) : Prop :=
  match at_pc s with
  | NotStarted => archive s = [] /\ gone = [] /\ live s = all
  | Copying offset =>
      archive s = take offset (live s) /\ (offset <= length (live s))%nat /\
      gone = [] /\ live s = all
  | Copied => live s = (archive s ++ gone)%list /\ live s = all
  | Truncated | Finished => (archive s ++ gone ++ live s)%list = all
  end.

(** A burst of three records around one rotation. *)
Definition r1 : segment := Line 1000001 "✨ Created: /etc/a".
Definition r2 : segment := Line 1000002 "✨ Created: /etc/b".
Definition r3 : segment := Line 1000003 "✨ Created: /etc/c".
Definition sample_notice : segment :=
  Line 1000004
    "Log compressed and saved as: /var/log/file_changes.log_20240517_134640.gz".


End Interleaving.

(** Three archives past the retention time, listed before the live log; the
    system refuses to delete the second of them. *)
Definition refused_second_world : world :=
  {| w_time := 1715940000;
     w_localtime := sample_localtime;
     w_var_log :=
       [("file_changes.log_20240430_100000.gz",
         regular (1715940000 - 17 * day) [GzStream []]);
        ("file_changes.log_20240501_100000.gz",
         regular (1715940000 - 16 * day) [GzStream []]);
        ("file_changes.log_20240502_100000.gz",
         regular (1715940000 - 15 * day) [GzStream []]);
        ("file_changes.log", regular (1715940000 - 10) [Line 1715939990 "c"])]
  |}.

(** A stale live log listed after a recent archive and a file of another
    program. *)
Definition stale_live_after_recent_world : world :=
  {| w_time := 1715940000;
     w_localtime := sample_localtime;
     w_var_log :=
       [("file_changes.log_20240516_100000.gz",
         regular (1715940000 - 1 * day) [GzStream []]);
        ("syslog", regular (1715940000 - 40 * day) []);
        ("file_changes.log",
         regular (1715940000 - 30 * day) [Line 1713348000 "c"]);
        ("file_changes.log_20240401_100000.gz",
         regular (1715940000 - 46 * day) [GzStream []])] |}.

(** ** Further notions used to describe the code *)

(** The record [delete_old_logs] logs after deleting [filename]. *)
Definition deletion_record (t : Z) (filename : string) : segment :=
  Line t ("Deleted old log file: " ++ path_join "/var/log" filename).

(** An entry the sweep has no business with: its name does not start with
    the log's base name, or it is not a regular file. *)
Definition foreign (w : world) (name : string) : Prop :=
  startswith name "file_changes.log" = false \/
  exists n, dir_lookup name (w_var_log w) = Some n /\ n_isfile n = false.

(** An entry modified within the retention time before [t]. *)
Definition recent (t : Z) (n : node) : Prop :=
  t - n_mtime n <= retention_window.

(** The notice [compress_log] logs at its end. *)
Definition rotation_notice (w : world) : segment :=
  Line (w_time w) ("Log compressed and saved as: " ++ compressed_log_name w).

(** The exception a rotation fault carries. *)
Definition fault_exn (flt : option rotation_fault) : option exn :=
  match flt with
  | Some (AtOpenLog e) | Some (AtOpenArchive e) | Some (AtCopy _ e)
  | Some (AtTruncate e) => Some e
  | None => None
  end.

(** A pass without Ctrl-C: no interrupt arrives, and what the system
    answers with are errors of class [Exception]. *)
Definition ordinary (t : tick) : Prop :=
  t_interrupt t = None /\
  (forall e, fault_exn (t_fault t) = Some e -> is_Exception e = true) /\
  (forall p e, t_denied t p = Some e -> is_Exception e = true).

Definition has_raised (s : step) : bool :=
  match s_raised s with Some _ => true | None => false end.

Definition is_log_error (s : step) : bool :=
  match s_call s with LogError => true | _ => false end.

Definition is_stop (s : step) : bool :=
  match s_call s with ObserverStop | LogStopped | ObserverJoin => true
                 | _ => false end.

(** A pass during which Ctrl-C arrives while the loop sleeps. *)
Definition interrupted_sleep_tick : tick :=
  {| t_fault := None; t_denied := no_denial; t_interrupt := Some InSleep |}.

Definition stopped_message : string := "❌ File Integrity Monitoring Stopped!".

(** The log directory after the live log has been deleted. *)
Definition orphaned_world : world :=
  final_world (delete_old_logs no_denial stale_live_first_world).

(** What the rotation keeps of the records [live0] that were in the live log
    when it started: until the copy has met the end of the file they are the
    beginning of the live log, and the archive is the part of the live log
    read so far; from then on they are the beginning of the archive. *)
Definition keeps_initial (live0 : list segment) (s : Interleaving.state)
  : Prop :=
  match Interleaving.at_pc s with
  | Interleaving.NotStarted => live0 `prefix_of` Interleaving.live s
  | Interleaving.Copying offset =>
      live0 `prefix_of` Interleaving.live s /\
      Interleaving.archive s = take offset (Interleaving.live s) /\
      (offset <= length (Interleaving.live s))%nat
  | _ => live0 `prefix_of` Interleaving.archive s
  end.
(** * Properties *)

(** ** Strings *)

Lemma append_empty_r (s : string) : s ++ "" = s.
Proof.
  induction s as [|a s IH]; [reflexivity|].
  change (String a (s ++ "") = String a s). now rewrite IH.
Qed.

Lemma append_assoc (a b c : string) : (a ++ b) ++ c = a ++ b ++ c.
Proof.
  induction a as [|x a IH]; [reflexivity|].
  change (String x ((a ++ b) ++ c) = String x (a ++ b ++ c)). now rewrite IH.
Qed.

Lemma contains_intro (pre t post : string) : contains (pre ++ t ++ post) t.
Proof. now exists pre, post. Qed.

(** ** The event handler *)

(** C7.  An event on a directory is not logged; an event on anything else is
    logged as exactly one message, made of the icon and the word of the
    event's kind and of the source path; a [Moved] message continues with
    [" to "] and the destination path, so it holds both paths. *)
Theorem dispatch_one_record_per_file_event (e : event) :
  if is_directory e then FileMonitorHandler.dispatch e = []
  else
    exists msg tail : string,
      FileMonitorHandler.dispatch e = [msg] /\
      msg = kind_icon (event_type e) ++ " " ++ kind_word (event_type e) ++ ": "
            ++ src_path e ++ tail /\
      tail = (match event_type e with
              | Moved => " to " ++ dest_path e
              | _ => ""
              end) /\
      contains msg (src_path e) /\
      (event_type e = Moved -> contains msg (dest_path e)).
Proof.
  destruct e as [k src dst dir]; destruct dir; simpl.
  - now destruct k.
  - destruct k; cbn [FileMonitorHandler.dispatch event_type];
      unfold FileMonitorHandler.on_created, FileMonitorHandler.on_modified,
        FileMonitorHandler.on_deleted, FileMonitorHandler.on_moved;
      cbn [is_directory negb src_path dest_path kind_icon kind_word].
    + exists (CREATED_ICON ++ " Created: " ++ src), "".
      rewrite append_empty_r. repeat split; try discriminate.
      exists (CREATED_ICON ++ " Created: "), "".
      now rewrite append_empty_r, append_assoc.
    + exists (MODIFIED_ICON ++ " Modified: " ++ src), "".
      rewrite append_empty_r. repeat split; try discriminate.
      exists (MODIFIED_ICON ++ " Modified: "), "".
      now rewrite append_empty_r, append_assoc.
    + exists (DELETED_ICON ++ " Deleted: " ++ src), "".
      rewrite append_empty_r. repeat split; try discriminate.
      exists (DELETED_ICON ++ " Deleted: "), "".
      now rewrite append_empty_r, append_assoc.
    + exists (MOVED_ICON ++ " Moved: " ++ src ++ " to " ++ dst), (" to " ++ dst).
      repeat split.
      * exists (MOVED_ICON ++ " Moved: "), (" to " ++ dst).
        now rewrite append_assoc.
      * intros _. exists (MOVED_ICON ++ " Moved: " ++ src ++ " to "), "".
        now rewrite append_empty_r, !append_assoc.
Qed.

(** ** The existing paths *)

Lemma existing_among_sublist (path_exists : string -> bool) (P : list string) :
  sublist (existing_among path_exists P) P.
Proof.
  induction P as [|p P IH]; simpl; [constructor|].
  destruct (path_exists p); now constructor.
Qed.

Lemma existing_among_elem (path_exists : string -> bool) (P : list string)
  (p : string) :
  p ∈ existing_among path_exists P <-> p ∈ P /\ path_exists p = true.
Proof.
  induction P as [|q P IH]; simpl.
  - split; [intros H | intros [H _]]; inversion H.
  - destruct (path_exists q) eqn:Hq; rewrite ?elem_of_cons, IH.
    + split; [intros [-> | [H1 H2]] | intros [[-> | H1] H2]]; auto.
    + split; [intros [H1 H2] | intros [[-> | H1] H2]]; auto; congruence.
Qed.

Lemma existing_among_greatest (path_exists : string -> bool)
  (P R : list string) :
  sublist R P -> (forall p, p ∈ R -> path_exists p = true) ->
  sublist R (existing_among path_exists P).
Proof.
  intros Hsub; induction Hsub as [|p R P Hsub IH|p R P Hsub IH]; intros Hall;
    simpl.
  - constructor.
  - rewrite (Hall p) by (left; reflexivity).
    constructor. apply IH. intros q Hq. apply Hall. now right.
  - destruct (path_exists p); [constructor|]; now apply IH.
Qed.

(** C8.  For every candidate list, the comprehension of [get_existing_paths]
    yields the subsequence of the candidates that exist, in their order; the
    function is total, so a missing candidate raises nothing.  In
    particular this holds of the list built into [get_existing_paths]. *)
Theorem get_existing_paths_subsequence (path_exists : string -> bool) :
  (forall P, existing_subsequence path_exists P (existing_among path_exists P))
  /\ existing_subsequence path_exists candidate_paths
       (get_existing_paths path_exists).
Proof.
  assert (H : forall P,
             existing_subsequence path_exists P (existing_among path_exists P)).
  { intros P. split; [apply existing_among_sublist|].
    split; [intros p; apply existing_among_elem|].
    intros R'; apply existing_among_greatest. }
  split; [exact H | apply H].
Qed.

(** ** Directories *)

Section Directory.

Implicit Types (d : list (string * node)) (n : node) (name k : string).

Lemma dir_lookup_write_eq name n d :
  dir_lookup name (dir_write name n d) = Some n.
Proof.
  induction d as [|[k m] d IH]; simpl.
  - now rewrite String.eqb_refl.
  - destruct (String.eqb k name) eqn:E; simpl; now rewrite E.
Qed.

Lemma dir_lookup_write_ne name k n d :
  String.eqb name k = false ->
  dir_lookup k (dir_write name n d) = dir_lookup k d.
Proof.
  intros Hne. induction d as [|[k' m] d IH]; simpl.
  - now rewrite Hne.
  - destruct (String.eqb k' name) eqn:E; simpl.
    + apply String.eqb_eq in E. subst k'. now rewrite Hne.
    + now rewrite IH.
Qed.

Lemma dir_lookup_remove_eq name d : dir_lookup name (dir_remove name d) = None.
Proof.
  induction d as [|[k m] d IH]; simpl; [reflexivity|].
  destruct (String.eqb k name) eqn:E; simpl; [assumption | now rewrite E].
Qed.

Lemma dir_lookup_remove_ne name k d :
  String.eqb name k = false ->
  dir_lookup k (dir_remove name d) = dir_lookup k d.
Proof.
  intros Hne. induction d as [|[k' m] d IH]; simpl; [reflexivity|].
  destruct (String.eqb k' name) eqn:E; simpl.
  - apply String.eqb_eq in E. subst k'. now rewrite Hne.
  - now rewrite IH.
Qed.

Lemma dir_lookup_Some_elem name n d :
  dir_lookup name d = Some n -> name ∈ map fst d.
Proof.
  induction d as [|[k m] d IH]; simpl; [discriminate|].
  destruct (String.eqb k name) eqn:E.
  - apply String.eqb_eq in E. subst k. intros _. now left.
  - intros H. right. now apply IH.
Qed.

Lemma dir_lookup_None_elem name d :
  dir_lookup name d = None <-> name ∉ map fst d.
Proof.
  induction d as [|[k m] d IH]; simpl.
  - split; [intros _ H; inversion H | reflexivity].
  - rewrite not_elem_of_cons. destruct (String.eqb k name) eqn:E.
    + apply String.eqb_eq in E. subst k.
      split; [discriminate | intros [H _]; now destruct H].
    + apply String.eqb_neq in E. rewrite IH.
      split; [intros H; split; [congruence | exact H] | now intros [_ H]].
Qed.

(** Writing keeps the listing when the entry exists and adds the name at
    its end otherwise. *)
Lemma dir_write_names name n d :
  map fst (dir_write name n d) =
  match dir_lookup name d with
  | Some _ => map fst d
  | None => (map fst d ++ [name])%list
  end.
Proof.
  induction d as [|[k m] d IH]; simpl; [reflexivity|].
  destruct (String.eqb k name) eqn:E; simpl; [reflexivity|].
  rewrite IH. now destruct (dir_lookup name d).
Qed.

End Directory.

(** ** Rotation *)

Lemma archive_key (w : world) :
  var_log_key (compressed_log_name w) = Some (archive_basename w).
Proof. reflexivity. Qed.

Lemma archive_is_not_live_log (w : world) :
  String.eqb (archive_basename w) LOG_BASENAME = false.
Proof. reflexivity. Qed.

Lemma stat_live_log (w : world) :
  stat LOG_FILE w = dir_lookup LOG_BASENAME (w_var_log w).
Proof. reflexivity. Qed.

Lemma stat_archive (w w' : world) :
  stat (compressed_log_name w) w' = dir_lookup (archive_basename w) (w_var_log w').
Proof. reflexivity. Qed.

(** What a successful [write_file] does. *)
Lemma write_file_Return (path : string) (data : list segment) (w w' : world) :
  write_file path data w = Return w' ->
  exists name,
    var_log_key path = Some name /\
    w' = set_var_log (dir_write name (regular (w_time w) data) (w_var_log w)) w.
Proof.
  unfold write_file. destruct (var_log_key path) as [name|]; [|discriminate].
  destruct (dir_lookup name (w_var_log w)) as [n|].
  - destruct (n_isfile n); [|discriminate].
    intros [= <-]. now exists name.
  - intros [= <-]. now exists name.
Qed.

Lemma write_file_Raise (path : string) (data : list segment) (w w' : world)
  (e : exn) :
  write_file path data w = Raise e w' -> w' = w.
Proof.
  unfold write_file. destruct (var_log_key path) as [name|]; [|congruence].
  destruct (dir_lookup name (w_var_log w)) as [n|]; [|discriminate].
  destruct (n_isfile n); [discriminate | congruence].
Qed.

(** Whatever [archive_step] does, it leaves the entry of the live log as it
    found it. *)
Lemma archive_step_keeps_live_log (flt : option rotation_fault) (w : world) :
  stat LOG_FILE (final_world (archive_step flt (compressed_log_name w) w))
  = stat LOG_FILE w.
Proof.
  assert (Hw : forall data,
    stat LOG_FILE (final_world (write_file (compressed_log_name w) data w))
    = stat LOG_FILE w).
  { intros data.
    destruct (write_file (compressed_log_name w) data w) as [w'|e w'] eqn:E.
    - apply write_file_Return in E as (name & Hk & ->).
      rewrite archive_key in Hk. injection Hk as <-.
      rewrite !stat_live_log. simpl.
      apply dir_lookup_write_ne, archive_is_not_live_log.
    - apply write_file_Raise in E as ->. reflexivity. }
  unfold archive_step.
  destruct (open_rb flt LOG_FILE w) as [e|data]; [reflexivity|].
  destruct flt as [[e|e|k e|e]|]; try reflexivity; try apply Hw.
  specialize (Hw (cons (GzStream (take k data)) nil)).
  now destruct (write_file _ _ w).
Qed.

(** C10.  When reading the live log or writing the archive raises, that is
    when [archive_step] raises, [compress_log] raises the same exception in
    the same world: [truncate_step] is not run, and the entry of the live
    log, contents and modification time, is the one from before the call. *)
Theorem failed_compression_keeps_live_log
  (flt : option rotation_fault) (w w' : world) (e : exn) :
  archive_step flt (compressed_log_name w) w = Raise e w' ->
  compress_log flt w = Raise e w' /\
  stat LOG_FILE w' = stat LOG_FILE w /\
  live_log w' = live_log w.
Proof.
  intros H. pose proof (archive_step_keeps_live_log flt w) as Hk.
  unfold compress_log. rewrite H in *. simpl in Hk.
  split; [reflexivity|]. split; [exact Hk|].
  unfold live_log. now rewrite Hk.
Qed.

Lemma failed_compression_keeps_live_log_witness :
  let flt := Some (AtCopy 1 DiskFull) in
  let w' := final_world
              (archive_step flt (compressed_log_name sample_world)
                 sample_world) in
  compress_log flt sample_world = Raise DiskFull w' /\
  stat LOG_FILE w' = stat LOG_FILE sample_world /\
  live_log w' = live_log sample_world.
Proof.
  apply (failed_compression_keeps_live_log (Some (AtCopy 1 DiskFull))
           sample_world).
  reflexivity.
Defined.

(** A disk that fills up during the copy: the archive keeps the one record
    that went through, the live log keeps its two records. *)
Example disk_full_during_copy :
  let w' := final_world (compress_log (Some (AtCopy 1 DiskFull)) sample_world) in
  raised (compress_log (Some (AtCopy 1 DiskFull)) sample_world) = Some DiskFull
  /\ listdir w' = ["file_changes.log"; "syslog";
                   "file_changes.log_20240517_134640.gz"]
  /\ stat "/var/log/file_changes.log_20240517_134640.gz" w'
     = Some (regular 1000000
               [GzStream [Line 999980 "✨ Created: /etc/motd"]])
  /\ live_log w' = live_log sample_world.
Proof. repeat split. Qed.

(** *** The archive's name *)

Lemma is_digit_digit_of (d : Z) : 0 <= d <= 9 -> is_digit (digit_of d) = true.
Proof.
  intros H.
  assert (E : d = 0 \/ d = 1 \/ d = 2 \/ d = 3 \/ d = 4 \/ d = 5 \/ d = 6 \/
              d = 7 \/ d = 8 \/ d = 9) by lia.
  repeat (destruct E as [-> | E]; [reflexivity|]). now subst.
Qed.

Lemma strftime_chars (d : datetime) :
  strftime d =
  String (digit_of (dt_year d / 100 / 10))
  (String (digit_of ((dt_year d / 100) mod 10))
  (String (digit_of (dt_year d mod 100 / 10))
  (String (digit_of ((dt_year d mod 100) mod 10))
  (String (digit_of (dt_month d / 10))
  (String (digit_of (dt_month d mod 10))
  (String (digit_of (dt_day d / 10))
  (String (digit_of (dt_day d mod 10))
  (String "_"
  (String (digit_of (dt_hour d / 10))
  (String (digit_of (dt_hour d mod 10))
  (String (digit_of (dt_minute d / 10))
  (String (digit_of (dt_minute d mod 10))
  (String (digit_of (dt_second d / 10))
  (String (digit_of (dt_second d mod 10)) EmptyString)))))))))))))).
Proof. reflexivity. Qed.

Lemma strftime_shape (d : datetime) :
  valid_datetime d -> is_YYYYMMDD_HHMMSS (strftime d) = true.
Proof.
  intros (Hy & Hm & Hd & Hh & Hi & Hs).
  rewrite strftime_chars. unfold is_YYYYMMDD_HHMMSS, forallb.
  rewrite !is_digit_digit_of; [reflexivity | ..];
    Z.div_mod_to_equations; lia.
Qed.

(** *** A rotation that succeeds *)

Lemma compress_log_Return (flt : option rotation_fault) (w w3 : world) :
  compress_log flt w = Return w3 ->
  exists old w1 w2,
    stat LOG_FILE w = Some old /\ n_isfile old = true /\
    write_file (compressed_log_name w) [GzStream (n_data old)] w = Return w1 /\
    archive_step flt (compressed_log_name w) w = Return w1 /\
    write_file LOG_FILE [] w1 = Return w2 /\
    truncate_step flt w1 = Return w2 /\
    w3 = logging_info
           ("Log compressed and saved as: " ++ compressed_log_name w) w2.
Proof.
  unfold compress_log.
  destruct (archive_step flt (compressed_log_name w) w) as [w1|e w1] eqn:Ha;
    [|discriminate].
  simpl.
  destruct (truncate_step flt w1) as [w2|e w2] eqn:Ht; [|discriminate].
  simpl. unfold announce_step. intros [= <-].
  unfold archive_step, open_rb in Ha.
  destruct flt as [[e|e|k e|e]|]; try discriminate.
  - destruct (stat LOG_FILE w) as [old|]; [|discriminate].
    destruct (n_isfile old); discriminate.
  - destruct (stat LOG_FILE w) as [old|]; [|discriminate].
    destruct (n_isfile old); [|discriminate].
    now destruct (write_file _ _ w).
  - destruct (stat LOG_FILE w) as [old|]; [|discriminate].
    destruct (n_isfile old) eqn:Hf; [|discriminate].
    exists old, w1, w2. unfold archive_step, open_rb.
    rewrite Hf. now repeat split.
Qed.

Lemma digit_value_digit_of (d : Z) :
  0 <= d <= 9 -> digit_value (digit_of d) = d.
Proof.
  intros H.
  assert (E : d = 0 \/ d = 1 \/ d = 2 \/ d = 3 \/ d = 4 \/ d = 5 \/ d = 6 \/
              d = 7 \/ d = 8 \/ d = 9) by lia.
  repeat (destruct E as [-> | E]; [reflexivity|]). now subst.
Qed.

(** Reading the timestamp of a date gives the date back. *)
Lemma read_stamp_strftime (d : datetime) :
  valid_datetime d -> read_stamp (strftime d) = Some d.
Proof.
  intros (Hy & Hm & Hd & Hh & Hi & Hs).
  rewrite strftime_chars. unfold read_stamp, two_digits.
  rewrite !digit_value_digit_of by (Z.div_mod_to_equations; lia).
  destruct d as [y m dd h i s]. cbn [dt_year dt_month dt_day dt_hour dt_minute
                                     dt_second] in *.
  f_equal. f_equal; Z.div_mod_to_equations; lia.
Qed.

(** C4, as the code has it.  After a rotation that succeeds: the live log is
    empty right after the truncation and, once [compress_log] has returned,
    holds exactly one record, the notice that names the archive; the archive
    is a regular file holding the compressed former contents of the live
    log; its name is [LOG_FILE], an underscore, fifteen characters of the
    shape [YYYYMMDD_HHMMSS] that spell the local date and time of the
    rotation, and [.gz]; and the directory holds the entries it held before,
    plus the archive as one new entry when no entry of that name existed. *)
Theorem successful_rotation (flt : option rotation_fault) (w w3 : world) :
  compress_log flt w = Return w3 ->
  valid_datetime (datetime_now w) ->
  exists (old : node) (w2 : world) (ts : string),
    stat LOG_FILE w = Some old /\
    archive_step flt (compressed_log_name w) w >>> truncate_step flt
      = Return w2 /\
    live_log w2 = [] /\
    live_log w3 =
      [Line (w_time w)
         ("Log compressed and saved as: " ++ compressed_log_name w)] /\
    stat (compressed_log_name w) w3 =
      Some (regular (w_time w) [GzStream (n_data old)]) /\
    compressed_log_name w = LOG_FILE ++ "_" ++ ts ++ ".gz" /\
    is_YYYYMMDD_HHMMSS ts = true /\
    read_stamp ts = Some (datetime_now w) /\
    (archive_basename w ∉ listdir w ->
     Permutation (listdir w3) (archive_basename w :: listdir w)) /\
    (archive_basename w ∈ listdir w -> Permutation (listdir w3) (listdir w)).
Proof.
  intros H Hv.
  apply compress_log_Return in H
    as (old & w1 & w2 & Hold & Hf & Hw1 & Ha & Hw2 & Ht & ->).
  exists old, w2, (strftime (datetime_now w)).
  apply write_file_Return in Hw1 as (k1 & Hk1 & ->).
  rewrite archive_key in Hk1. injection Hk1 as <-.
  apply write_file_Return in Hw2 as (k2 & Hk2 & ->).
  injection Hk2 as <-.
  cbn [w_time w_var_log set_var_log] in *.
  set (d1 := dir_write (archive_basename w)
               (regular (w_time w) [GzStream (n_data old)]) (w_var_log w)) in *.
  set (d2 := dir_write "file_changes.log" (regular (w_time w) []) d1) in *.
  assert (Hlive1 : dir_lookup "file_changes.log" d1 = Some old).
  { unfold d1. rewrite dir_lookup_write_ne by reflexivity. exact Hold. }
  assert (Hlive2 : dir_lookup "file_changes.log" d2
                   = Some (regular (w_time w) []))
    by apply dir_lookup_write_eq.
  split; [exact Hold|].
  split; [rewrite Ha; exact Ht|].
  unfold live_log. rewrite !stat_live_log.
  unfold logging_info, log_emit, LOG_BASENAME.
  cbn [w_time w_var_log set_var_log].
  rewrite Hlive2. cbn [n_isfile n_data regular app w_var_log set_var_log].
  split; [reflexivity|].
  split; [now rewrite dir_lookup_write_eq|].
  split.
  { rewrite stat_archive. cbn [w_var_log set_var_log].
    rewrite dir_lookup_write_ne by reflexivity.
    unfold d2. rewrite dir_lookup_write_ne by reflexivity.
    apply dir_lookup_write_eq. }
  split; [reflexivity|].
  split; [now apply strftime_shape|].
  split; [now apply read_stamp_strftime|].
  unfold listdir. cbn [w_var_log set_var_log].
  rewrite dir_write_names, Hlive2. unfold d2.
  rewrite dir_write_names, Hlive1. unfold d1. rewrite dir_write_names.
  split; intros Hin.
  - apply dir_lookup_None_elem in Hin. rewrite Hin.
    symmetry. apply Permutation_cons_append.
  - destruct (dir_lookup (archive_basename w) (w_var_log w)) eqn:E;
      [reflexivity|].
    now apply dir_lookup_None_elem in E.
Qed.

Lemma successful_rotation_witness :
  exists (old : node) (w2 : world) (ts : string),
    stat LOG_FILE sample_world = Some old /\
    archive_step None (compressed_log_name sample_world) sample_world
      >>> truncate_step None = Return w2 /\
    live_log w2 = [] /\
    live_log (final_world (compress_log None sample_world)) =
      [Line (w_time sample_world)
         ("Log compressed and saved as: " ++ compressed_log_name sample_world)]
    /\
    stat (compressed_log_name sample_world)
         (final_world (compress_log None sample_world)) =
      Some (regular (w_time sample_world) [GzStream (n_data old)]) /\
    compressed_log_name sample_world = LOG_FILE ++ "_" ++ ts ++ ".gz" /\
    is_YYYYMMDD_HHMMSS ts = true /\
    read_stamp ts = Some (datetime_now sample_world) /\
    (archive_basename sample_world ∉ listdir sample_world ->
     Permutation (listdir (final_world (compress_log None sample_world)))
       (archive_basename sample_world :: listdir sample_world)) /\
    (archive_basename sample_world ∈ listdir sample_world ->
     Permutation (listdir (final_world (compress_log None sample_world)))
       (listdir sample_world)).
Proof.
  apply (successful_rotation None sample_world
           (final_world (compress_log None sample_world))).
  - reflexivity.
  - unfold valid_datetime. vm_compute. intuition discriminate.
Defined.

(** The rotation of the sample world, at 13:46:40 on 17 May 2024: the
    archive's name spells that time. *)
Example archive_name_of_sample_rotation :
  compressed_log_name sample_world
  = "/var/log/file_changes.log_20240517_134640.gz"
  /\ read_stamp "20240517_134640"
     = Some {| dt_year := 2024; dt_month := 5; dt_day := 17;
               dt_hour := 13; dt_minute := 46; dt_second := 40 |}.
Proof. split; reflexivity. Qed.

(** The claim C4 fails where it says that the live log is empty once the
    cycle has completed: [compress_log] ends by logging the archive's name,
    and that record is in the live log when it returns. *)
Lemma live_log_not_empty_after_rotation :
  exists w3,
    compress_log None sample_world = Return w3 /\
    live_log w3 =
      [Line 1000000 "Log compressed and saved as: /var/log/file_changes.log_20240517_134640.gz"]
    /\ live_log w3 <> [].
Proof.
  eexists. split; [reflexivity|]. split; [reflexivity | discriminate].
Qed.

(** ** The retention sweep *)

Section Sweep.

Variable denied : string -> option exn.
Variable current_time : Z.

Lemma var_log_key_join (f : string) :
  var_log_key (path_join "/var/log" f) = Some f.
Proof. reflexivity. Qed.

Lemma stat_join (f : string) (w : world) :
  stat (path_join "/var/log" f) w = dir_lookup f (w_var_log w).
Proof. reflexivity. Qed.

(** The body of the loop either leaves the world alone or removes the file
    and logs the removal. *)
Lemma sweep_one_cases (f : string) (w : world) :
  sweep_one denied current_time f w =
  if expired current_time w f then
    os_remove denied (path_join "/var/log" f) w
    >>> (fun w' =>
           Return (logging_info
                     ("Deleted old log file: " ++ path_join "/var/log" f) w'))
  else Return w.
Proof.
  unfold sweep_one, expired.
  destruct (startswith f "file_changes.log"); [|reflexivity].
  destruct (isfile (path_join "/var/log" f) w); [|reflexivity].
  now destruct (_ >? _).
Qed.

Lemma log_emit_lookup_ne (msg g : string) (w : world) :
  String.eqb LOG_BASENAME g = false ->
  dir_lookup g (w_var_log (log_emit msg w)) = dir_lookup g (w_var_log w).
Proof.
  intros Hg. unfold log_emit.
  destruct (dir_lookup LOG_BASENAME (w_var_log w)) as [n|]; [|reflexivity].
  destruct (n_isfile n); [|reflexivity].
  cbn [w_var_log set_var_log]. now apply dir_lookup_write_ne.
Qed.

Lemma log_emit_lookup_None (msg g : string) (w : world) :
  dir_lookup g (w_var_log w) = None ->
  dir_lookup g (w_var_log (log_emit msg w)) = None.
Proof.
  intros Hg. unfold log_emit.
  destruct (dir_lookup LOG_BASENAME (w_var_log w)) as [n|] eqn:E;
    [|assumption].
  destruct (n_isfile n); [|assumption].
  cbn [w_var_log set_var_log].
  destruct (String.eqb LOG_BASENAME g) eqn:Eg.
  - apply String.eqb_eq in Eg. congruence.
  - now rewrite dir_lookup_write_ne.
Qed.

Lemma os_remove_Return (path : string) (w w' : world) :
  os_remove denied path w = Return w' ->
  exists name,
    var_log_key path = Some name /\ denied path = None /\
    w' = set_var_log (dir_remove name (w_var_log w)) w.
Proof.
  unfold os_remove. destruct (denied path); [discriminate|].
  destruct (var_log_key path) as [name|]; [|discriminate].
  destruct (dir_lookup name (w_var_log w)); [|discriminate].
  intros [= <-]. now exists name.
Qed.

Lemma os_remove_Raise (path : string) (w w' : world) (e : exn) :
  os_remove denied path w = Raise e w' -> w' = w.
Proof.
  unfold os_remove. destruct (denied path); [congruence|].
  destruct (var_log_key path) as [name|]; [|congruence].
  destruct (dir_lookup name (w_var_log w)); [discriminate | congruence].
Qed.

(** The body of the loop for [f] touches the entry of [f] and that of the
    live log only. *)
Lemma sweep_one_frame (f g : string) (w : world) :
  String.eqb f g = false -> String.eqb LOG_BASENAME g = false ->
  dir_lookup g (w_var_log (final_world (sweep_one denied current_time f w)))
  = dir_lookup g (w_var_log w).
Proof.
  intros Hf Hg. rewrite sweep_one_cases.
  destruct (expired current_time w f); [|reflexivity].
  destruct (os_remove denied (path_join "/var/log" f) w) as [w1|e w1] eqn:E.
  - apply os_remove_Return in E as (name & Hk & _ & ->).
    rewrite var_log_key_join in Hk. injection Hk as <-.
    cbn [bind final_world]. unfold logging_info.
    rewrite log_emit_lookup_ne by assumption.
    cbn [w_var_log set_var_log]. now apply dir_lookup_remove_ne.
  - apply os_remove_Raise in E as ->. reflexivity.
Qed.

(** It creates no entry. *)
Lemma sweep_one_lookup_None (f g : string) (w : world) :
  dir_lookup g (w_var_log w) = None ->
  dir_lookup g (w_var_log (final_world (sweep_one denied current_time f w)))
  = None.
Proof.
  intros Hg. rewrite sweep_one_cases.
  destruct (expired current_time w f); [|assumption].
  destruct (os_remove denied (path_join "/var/log" f) w) as [w1|e w1] eqn:E.
  - apply os_remove_Return in E as (name & Hk & _ & ->).
    rewrite var_log_key_join in Hk. injection Hk as <-.
    cbn [bind final_world]. apply log_emit_lookup_None.
    cbn [w_var_log set_var_log].
    destruct (String.eqb f g) eqn:Efg.
    + apply String.eqb_eq in Efg. subst g. apply dir_lookup_remove_eq.
    + now rewrite dir_lookup_remove_ne.
  - apply os_remove_Raise in E as ->. assumption.
Qed.

Lemma sweep_loop_frame (names : list string) (g : string) (w : world) :
  g ∉ names -> String.eqb LOG_BASENAME g = false ->
  dir_lookup g (w_var_log (final_world (sweep_loop denied current_time names w)))
  = dir_lookup g (w_var_log w).
Proof.
  revert w. induction names as [|f names IH]; intros w Hnot Hg;
    [reflexivity|].
  apply not_elem_of_cons in Hnot as [Hne Hnot].
  cbn [sweep_loop].
  pose proof (sweep_one_frame f g w) as H1.
  destruct (sweep_one denied current_time f w) as [w1|e w1];
    cbn [bind final_world] in *.
  - rewrite IH by assumption. apply H1; [|assumption].
    apply String.eqb_neq. congruence.
  - apply H1; [|assumption]. apply String.eqb_neq. congruence.
Qed.

Lemma sweep_loop_lookup_None (names : list string) (g : string) (w : world) :
  dir_lookup g (w_var_log w) = None ->
  dir_lookup g (w_var_log (final_world (sweep_loop denied current_time names w)))
  = None.
Proof.
  revert w. induction names as [|f names IH]; intros w Hg; [assumption|].
  cbn [sweep_loop].
  pose proof (sweep_one_lookup_None f g w Hg) as H1.
  destruct (sweep_one denied current_time f w) as [w1|e w1];
    cbn [bind final_world] in *; [now apply IH | assumption].
Qed.

(** A raise in the middle of the listing ends the loop there. *)
Lemma sweep_loop_app (names1 names2 : list string) (w : world) :
  sweep_loop denied current_time (names1 ++ names2) w =
  sweep_loop denied current_time names1 w
  >>> sweep_loop denied current_time names2.
Proof.
  revert w. induction names1 as [|f names1 IH]; intros w; [reflexivity|].
  cbn [app sweep_loop].
  destruct (sweep_one denied current_time f w) as [w1|e w1];
    cbn [bind]; [apply IH | reflexivity].
Qed.

End Sweep.

Lemma sweep_one_removes (denied : string -> option exn) (t : Z) (f : string)
  (w w1 : world) :
  expired t w f = true ->
  sweep_one denied t f w = Return w1 ->
  dir_lookup f (w_var_log w1) = None.
Proof.
  intros He H. rewrite sweep_one_cases, He in H.
  destruct (os_remove denied (path_join "/var/log" f) w) as [w0|e w0] eqn:E;
    [|discriminate].
  apply os_remove_Return in E as (name & Hk & _ & ->).
  rewrite var_log_key_join in Hk. injection Hk as <-.
  cbn [bind] in H. injection H as <-.
  apply log_emit_lookup_None. cbn [w_var_log set_var_log].
  apply dir_lookup_remove_eq.
Qed.

Lemma expired_of_entry (t : Z) (w : world) (f : string) (n : node) :
  dir_lookup f (w_var_log w) = Some n ->
  startswith f "file_changes.log" = true -> n_isfile n = true ->
  expired t w f = (t - n_mtime n >? retention_window).
Proof.
  intros Hl Hs Hf. unfold expired, isfile, getmtime.
  rewrite stat_join, Hl, Hs, Hf. reflexivity.
Qed.

Lemma sweep_loop_entry (denied : string -> option exn) (t : Z)
  (f : string) (n : node) (names : list string) :
  forall w w',
    NoDup names -> f ∈ names ->
    sweep_loop denied t names w = Return w' ->
    dir_lookup f (w_var_log w) = Some n ->
    startswith f "file_changes.log" = true -> n_isfile n = true ->
    String.eqb LOG_BASENAME f = false ->
    dir_lookup f (w_var_log w') =
    if t - n_mtime n >? retention_window then None else Some n.
Proof.
  induction names as [|g names IH]; intros w w' Hnd Hin Hrun Hl Hs Hf Hlive.
  - inversion Hin.
  - apply NoDup_cons in Hnd as [Hg Hnd]. cbn [sweep_loop] in Hrun.
    destruct (sweep_one denied t g w) as [w1|e w1] eqn:E1; [|discriminate].
    cbn [bind] in Hrun.
    apply elem_of_cons in Hin as [<- | Hin].
    + pose proof (expired_of_entry t w f n Hl Hs Hf) as He.
      destruct (t - n_mtime n >? retention_window).
      * apply (f_equal final_world) in Hrun. cbn [final_world] in Hrun.
        rewrite <- Hrun. apply sweep_loop_lookup_None.
        eapply sweep_one_removes; eassumption.
      * rewrite sweep_one_cases, He in E1. injection E1 as <-.
        apply (f_equal final_world) in Hrun. cbn [final_world] in Hrun.
        rewrite <- Hrun, sweep_loop_frame by assumption. exact Hl.
    + apply (IH w1 w'); try assumption.
      pose proof (sweep_one_frame denied t g f w) as Hfr.
      rewrite E1 in Hfr. cbn [final_world] in Hfr. rewrite Hfr; [exact Hl| |exact Hlive].
      apply String.eqb_neq. intros ->. contradiction.
Qed.

(** C5, as the code has it.  In a run of [delete_old_logs] that deletes
    without failure, every regular file of [/var/log] whose name starts with
    the log's base name, other than the live log itself, is deleted if and
    only if its modification time is strictly older than the time of the run
    minus the retention time of 7 days, that is 604800 seconds; a file that
    is kept is kept as it was. *)
Theorem sweep_deletes_exactly_the_expired
  (denied : string -> option exn) (w w' : world) (f : string) (n : node) :
  NoDup (listdir w) ->
  delete_old_logs denied w = Return w' ->
  dir_lookup f (w_var_log w) = Some n ->
  startswith f "file_changes.log" = true ->
  n_isfile n = true ->
  f <> LOG_BASENAME ->
  retention_window = 604800 /\
  (stat (path_join "/var/log" f) w' = None
   <-> n_mtime n < w_time w - retention_window) /\
  (stat (path_join "/var/log" f) w' <> None ->
   stat (path_join "/var/log" f) w' = Some n).
Proof.
  intros Hnd Hrun Hl Hs Hf Hne. split; [reflexivity|].
  rewrite stat_join.
  rewrite (sweep_loop_entry denied (w_time w) f n (listdir w) w w');
    try assumption.
  - destruct (w_time w - n_mtime n >? retention_window) eqn:E.
    + apply Z.gtb_lt in E. split; [|congruence].
      split; [intros _; lia | reflexivity].
    + split; [|reflexivity].
      split; [discriminate|]. intros H.
      assert (w_time w - n_mtime n > retention_window) by lia.
      apply Z.gt_lt, Z.gtb_lt in H0. congruence.
  - eapply dir_lookup_Some_elem, Hl.
  - apply String.eqb_neq. congruence.
Qed.

Lemma sweep_deletes_exactly_the_expired_witness :
  retention_window = 604800 /\
  (stat (path_join "/var/log" "file_changes.log_20240509_100000.gz")
        (final_world (delete_old_logs no_denial sweep_world)) = None
   <-> 1715940000 - 8 * day < w_time sweep_world - retention_window) /\
  (stat (path_join "/var/log" "file_changes.log_20240509_100000.gz")
        (final_world (delete_old_logs no_denial sweep_world)) <> None ->
   stat (path_join "/var/log" "file_changes.log_20240509_100000.gz")
        (final_world (delete_old_logs no_denial sweep_world))
   = Some (regular (1715940000 - 8 * day) [GzStream [Line 1715000000 "a"]])).
Proof.
  apply (sweep_deletes_exactly_the_expired no_denial sweep_world
           (final_world (delete_old_logs no_denial sweep_world))
           "file_changes.log_20240509_100000.gz"
           (regular (1715940000 - 8 * day) [GzStream [Line 1715000000 "a"]])).
  - apply (bool_decide_unpack _). vm_compute. exact I.
  - reflexivity.
  - reflexivity.
  - reflexivity.
  - reflexivity.
  - discriminate.
Defined.

(** The two files of the specification's example: the archive of eight days
    is gone after the run, the archive of six days is still there. *)
Example sweep_eight_days_six_days :
  let w' := final_world (delete_old_logs no_denial sweep_world) in
  listdir w' = ["file_changes.log_20240511_100000.gz"; "file_changes.log";
                "syslog"] /\
  live_log w' =
    [Line 1715939990 "c";
     Line 1715940000
       "Deleted old log file: /var/log/file_changes.log_20240509_100000.gz"].
Proof. split; reflexivity. Qed.

(** The claim C5 fails for the live log, which belongs to the family of
    names: here its modification time is eight days before the run, and the
    run keeps it.  The archive listed before it is deleted first, the
    deletion is logged, and the write sets the live log's modification time
    to the time of the run. *)
Lemma stale_live_log_survives_sweep :
  exists n w',
    stat LOG_FILE stale_live_world = Some n /\
    startswith LOG_BASENAME "file_changes.log" = true /\
    n_isfile n = true /\
    n_mtime n < w_time stale_live_world - LOG_RETENTION_DAYS * 86400 /\
    delete_old_logs no_denial stale_live_world = Return w' /\
    listdir w' = ["file_changes.log"] /\
    stat LOG_FILE w' <> None.
Proof.
  eexists; eexists.
  repeat (split; [reflexivity|]). discriminate.
Qed.

Lemma sweep_loop_nothing_expired (denied : string -> option exn) (t : Z)
  (names : list string) (w : world) :
  (forall g, g ∈ names -> expired t w g = false) ->
  sweep_loop denied t names w = Return w.
Proof.
  induction names as [|g names IH]; intros H; [reflexivity|].
  cbn [sweep_loop]. rewrite sweep_one_cases, H by (left; reflexivity).
  cbn [bind]. apply IH. intros g' Hg'. apply H. now right.
Qed.

(** C6, as the code has it.  When [os.remove] fails for a file, the
    exception leaves [delete_old_logs] at once: the run ends in the world
    that the files listed before had left.  The failing file is still there;
    it and the files listed after it are not visited any further in this
    run, and each of them, the live log apart (the deletions made before
    were logged to it), is as it was before the run. *)
Theorem sweep_aborts_at_failed_deletion
  (denied : string -> option exn) (w w1 : world)
  (names1 names2 : list string) (f : string) (e : exn) :
  NoDup (listdir w) ->
  listdir w = (names1 ++ f :: names2)%list ->
  sweep_loop denied (w_time w) names1 w = Return w1 ->
  expired (w_time w) w1 f = true ->
  denied (path_join "/var/log" f) = Some e ->
  delete_old_logs denied w = Raise e w1 /\
  isfile (path_join "/var/log" f) w1 = true /\
  (forall g, g ∈ f :: names2 -> g <> LOG_BASENAME ->
             stat (path_join "/var/log" g) w1 = stat (path_join "/var/log" g) w).
Proof.
  intros Hnd Hls H1 He Hden. split; [|split].
  - unfold delete_old_logs. rewrite Hls, sweep_loop_app, H1.
    cbn [bind sweep_loop]. rewrite sweep_one_cases, He.
    unfold os_remove. now rewrite Hden.
  - unfold expired in He. apply andb_prop in He as [He _].
    now apply andb_prop in He as [_ He].
  - intros g Hg Hlive. rewrite !stat_join.
    apply (f_equal final_world) in H1. cbn [final_world] in H1.
    rewrite <- H1. apply sweep_loop_frame.
    + rewrite Hls in Hnd. apply NoDup_app in Hnd as (_ & Hdisj & _).
      intros Hin. exact (Hdisj g Hin Hg).
    + apply String.eqb_neq. congruence.
Qed.

Lemma sweep_aborts_at_failed_deletion_witness :
  let w1 := final_world
              (sweep_loop deny_first_archive (w_time refused_second_world)
                 ["file_changes.log_20240430_100000.gz"] refused_second_world) in
  delete_old_logs deny_first_archive refused_second_world
  = Raise PermissionError w1 /\
  isfile (path_join "/var/log" "file_changes.log_20240501_100000.gz") w1 = true
  /\
  (forall g, g ∈ ["file_changes.log_20240501_100000.gz";
                  "file_changes.log_20240502_100000.gz"; "file_changes.log"] ->
             g <> LOG_BASENAME ->
             stat (path_join "/var/log" g) w1
             = stat (path_join "/var/log" g) refused_second_world).
Proof.
  apply (sweep_aborts_at_failed_deletion deny_first_archive
           refused_second_world
           (final_world
              (sweep_loop deny_first_archive (w_time refused_second_world)
                 ["file_changes.log_20240430_100000.gz"] refused_second_world))
           ["file_changes.log_20240430_100000.gz"]
           ["file_changes.log_20240502_100000.gz"; "file_changes.log"]
           "file_changes.log_20240501_100000.gz" PermissionError).
  - apply (bool_decide_unpack _). vm_compute. exact I.
  - reflexivity.
  - reflexivity.
  - reflexivity.
  - reflexivity.
Defined.

(** In that run the first archive is deleted and the deletion logged before
    the second one fails: the live log, although listed after the failing
    file, has one record more than before the run. *)
Example live_log_after_refused_deletion :
  let w' := final_world
              (delete_old_logs deny_first_archive refused_second_world) in
  listdir w' = ["file_changes.log_20240501_100000.gz";
                "file_changes.log_20240502_100000.gz"; "file_changes.log"] /\
  live_log w' =
    [Line 1715939990 "c";
     Line 1715940000
       "Deleted old log file: /var/log/file_changes.log_20240430_100000.gz"].
Proof. split; reflexivity. Qed.

(** The claim C6 fails: the system refuses to delete the first of two old
    archives, the run ends with that error, and the second archive, which is
    as old and which the system would have let go, is still there: the run
    never tried to delete it. *)
Lemma failed_deletion_ends_sweep :
  exists w',
    delete_old_logs deny_first_archive two_old_archives_world
      = Raise PermissionError w' /\
    expired (w_time two_old_archives_world) two_old_archives_world
      "file_changes.log_20240502_100000.gz" = true /\
    deny_first_archive "/var/log/file_changes.log_20240502_100000.gz" = None /\
    stat "/var/log/file_changes.log_20240502_100000.gz" w'
      = Some (regular (1715940000 - 15 * day) [GzStream []]) /\
    live_log w' = live_log two_old_archives_world.
Proof.
  eexists. repeat (split; [reflexivity|]). reflexivity.
Qed.

(** ** The loop of [main] *)

Lemma log_emit_time (msg : string) (w : world) :
  w_time (log_emit msg w) = w_time w.
Proof.
  unfold log_emit. destruct (dir_lookup _ _) as [n|]; [|reflexivity].
  now destruct (n_isfile n).
Qed.

Lemma write_file_time (path : string) (data : list segment) (w : world) :
  w_time (final_world (write_file path data w)) = w_time w.
Proof.
  unfold write_file. destruct (var_log_key path); [|reflexivity].
  destruct (dir_lookup _ _) as [n|]; [|reflexivity].
  now destruct (n_isfile n).
Qed.

(** [compress_log] does not wait: the clock reads the same when it ends,
    however it ends. *)
Lemma compress_log_time (flt : option rotation_fault) (w : world) :
  w_time (final_world (compress_log flt w)) = w_time w.
Proof.
  assert (Ha : w_time (final_world (archive_step flt (compressed_log_name w) w))
               = w_time w).
  { unfold archive_step. destruct (open_rb flt LOG_FILE w); [reflexivity|].
    destruct flt as [[e|e|k e|e]|]; try reflexivity; try apply write_file_time.
    pose proof (write_file_time (compressed_log_name w)
                  [GzStream (take k l)] w) as H.
    now destruct (write_file _ _ w). }
  unfold compress_log.
  destruct (archive_step flt (compressed_log_name w) w) as [w1|e w1];
    cbn [bind final_world] in *; [|assumption].
  assert (Ht : w_time (final_world (truncate_step flt w1)) = w_time w1).
  { unfold truncate_step.
    destruct flt as [[e|e|k e|e]|]; try reflexivity; apply write_file_time. }
  destruct (truncate_step flt w1) as [w2|e w2];
    cbn [bind final_world announce_step] in *; [|congruence].
  unfold logging_info. rewrite log_emit_time. congruence.
Qed.

Lemma interruptible_compress_time (t : tick) (w : world) :
  w_time (final_world
            (interruptible t InCompress (compress_log (t_fault t)) w))
  = w_time w.
Proof.
  unfold interruptible. destruct (t_interrupt t) as [q|];
    [destruct (phase_eqb InCompress q); [reflexivity|]|];
    apply compress_log_time.
Qed.



(** C3, what the code does.  When the rotation of a pass raises an
    [Exception], the pass logs the error, skips the sleep and the sweep, and
    the loop goes on; the clock has not moved, so the next pass calls
    [compress_log] again at the very time of the failed attempt: the
    rotation period does not elapse before the retry. *)
Theorem failed_rotation_is_retried_at_once
  (t t' : tick) (w w1 : world) (e : exn) :
  interruptible t InCompress (compress_log (t_fault t)) w = Raise e w1 ->
  is_Exception e = true ->
  let w2 := logging_error ("Error: " ++ exn_str e) w1 in
  main_iter t w =
    ([ {| s_call := CompressLog; s_at := w_time w; s_raised := Some e |};
       {| s_call := LogError; s_at := w_time w; s_raised := None |} ],
     w2, true) /\
  w_time w2 = w_time w /\
  exists s rest,
    trace_of (main_iter t' w2) = s :: rest /\
    s_call s = CompressLog /\ s_at s = w_time w /\
    s_at s < w_time w + COMPRESS_INTERVAL.
Proof.
  intros H He. cbv zeta.
  pose proof (interruptible_compress_time t w) as Htime.
  rewrite H in Htime. cbn [final_world] in Htime.
  assert (Ht2 : w_time (logging_error ("Error: " ++ exn_str e) w1) = w_time w).
  { unfold logging_error. now rewrite log_emit_time. }
  split; [|split; [exact Ht2|]].
  - unfold main_iter, try_body. rewrite H, He.
    unfold record_call. cbn [app raised]. now rewrite Htime.
  - set (w2 := logging_error ("Error: " ++ exn_str e) w1) in *.
    unfold main_iter, trace_of, try_body.
    destruct (interruptible t' InCompress (compress_log (t_fault t')) w2)
      as [w3|e3 w3].
    + destruct (interruptible t' InSleep (time_sleep COMPRESS_INTERVAL) w3)
        as [w4|e4 w4].
      * destruct (interruptible t' InSweep (delete_old_logs (t_denied t')) w4)
          as [w5|e5 w5]; [|destruct (is_Exception e5)];
          eexists; eexists; unfold record_call; cbn [fst app s_call s_at];
          (split; [reflexivity|]); cbn [s_call s_at]; rewrite Ht2;
          repeat split; unfold COMPRESS_INTERVAL; lia.
      * destruct (is_Exception e4);
          eexists; eexists; unfold record_call; cbn [fst app s_call s_at];
          (split; [reflexivity|]); cbn [s_call s_at]; rewrite Ht2;
          repeat split; unfold COMPRESS_INTERVAL; lia.
    + destruct (is_Exception e3);
        eexists; eexists; unfold record_call; cbn [fst app s_call s_at];
        (split; [reflexivity|]); cbn [s_call s_at]; rewrite Ht2;
        repeat split; unfold COMPRESS_INTERVAL; lia.
Qed.

Lemma failed_rotation_is_retried_at_once_witness :
  let w2 := logging_error ("Error: " ++ exn_str PermissionError) sample_world in
  main_iter unreadable_tick sample_world =
    ([ {| s_call := CompressLog; s_at := w_time sample_world;
          s_raised := Some PermissionError |};
       {| s_call := LogError; s_at := w_time sample_world;
          s_raised := None |} ],
     w2, true) /\
  w_time w2 = w_time sample_world /\
  exists s rest,
    trace_of (main_iter unreadable_tick w2) = s :: rest /\
    s_call s = CompressLog /\ s_at s = w_time sample_world /\
    s_at s < w_time sample_world + COMPRESS_INTERVAL.
Proof.
  apply (failed_rotation_is_retried_at_once unreadable_tick unreadable_tick
           sample_world sample_world PermissionError).
  - reflexivity.
  - reflexivity.
Defined.

(** Two passes during which the live log cannot be read, and a third during
    which it can: the three calls of [compress_log] start at the same
    reading of the clock, and the first sleep comes after them. *)
Example three_attempts_without_sleep :
  map (fun s => (s_call s, s_at s))
      (trace_of (main_loop [unreadable_tick; unreadable_tick; quiet_tick]
                   sample_world)) =
  [(CompressLog, 1000000); (LogError, 1000000);
   (CompressLog, 1000000); (LogError, 1000000);
   (CompressLog, 1000000); (Sleep, 1000000); (DeleteOldLogs, 1003600)].
Proof. reflexivity. Qed.

(** ** The rotation beside the handlers *)

Module InterleavingFacts.
Import Interleaving.

Ltac tidy :=
  repeat split; rewrite ?app_nil_r, <- ?app_assoc; cbn [app length];
  try (reflexivity || lia || assumption).

Section Invariant.

Variable bufsize : nat.
Variable notice : segment.
Hypothesis bufsize_pos : (0 < bufsize)%nat.

Lemma read_at_end (offset : nat) (l : list segment) :
  take bufsize (drop offset l) = [] -> (offset <= length l)%nat ->
  take offset l = l.
Proof.
  intros H Hle. apply take_ge.
  apply (f_equal length) in H.
  rewrite length_take, length_drop in H. simpl in H. lia.
Qed.

Lemma read_advances (offset : nat) (l : list segment) :
  (offset <= length l)%nat ->
  (take offset l ++ take bufsize (drop offset l))%list
  = take (offset + length (take bufsize (drop offset l))) l
  /\ (offset + length (take bufsize (drop offset l)) <= length l)%nat.
Proof.
  intros Hle. rewrite take_take_drop, length_take, length_drop.
  split; [|lia].
  destruct (Nat.le_gt_cases bufsize (length l - offset)) as [H|H].
  - now rewrite Nat.min_l.
  - rewrite Nat.min_r by lia. rewrite !take_ge by lia. reflexivity.
Qed.

Lemma step_consistent (a : action) (s : state) (all gone : list segment) :
  consistent s all gone ->
  consistent (step bufsize notice a s)
    (all ++ written_by notice a s) (gone ++ lost_by a s).
Proof.
  unfold consistent. destruct s as [lv ar p]. destruct a as [l|].
  - destruct p as [|offset| | |]; cbn.
    + intros (-> & -> & ->). tidy.
    + intros (-> & Hle & -> & ->).
      rewrite length_app, take_app_le by assumption. tidy.
    + intros [-> <-]. tidy.
    + intros <-. tidy.
    + intros <-. tidy.
  - destruct p as [|offset| | |]; cbn.
    + intros (-> & -> & ->). tidy.
    + intros (-> & Hle & -> & ->). rewrite !app_nil_r.
      destruct (take bufsize (drop offset all)) as [|x buf] eqn:E; cbn.
      * rewrite (read_at_end offset all E Hle). tidy.
      * rewrite <- E. destruct (read_advances offset all Hle) as [H1 H2].
        rewrite E in *. tidy.
    + intros [-> <-]. tidy.
    + intros <-. tidy.
    + intros <-. tidy.
Qed.

Lemma run_consistent (sched : list action) :
  forall (s : state) (all gone : list segment),
    consistent s all gone ->
    consistent (run bufsize notice sched s)
      (all ++ written bufsize notice sched s)
      (gone ++ lost bufsize notice sched s).
Proof.
  induction sched as [|a sched IH]; intros s all gone H; cbn.
  - now rewrite !app_nil_r.
  - rewrite !app_assoc. apply IH. now apply step_consistent.
Qed.

End Invariant.

Lemma written_length (bufsize : nat) (notice : segment)
  (sched : list action) :
  forall s : state,
    (length (written bufsize notice sched s) + notices (at_pc s))%nat
    = (length (appended sched)
       + notices (at_pc (run bufsize notice sched s)))%nat.
Proof.
  induction sched as [|a sched IH]; intros s; [reflexivity|].
  cbn [written run appended]. rewrite length_app.
  specialize (IH (step bufsize notice a s)).
  destruct a as [l|].
  - cbn in *. lia.
  - destruct s as [lv ar p]. unfold step, rotate, written_by in *.
    destruct p as [|offset| | |]; cbn in *; try lia.
    destruct (take bufsize (drop offset lv)); cbn in *; lia.
Qed.





(** Without any append, the steps of the model leave what [compress_log]
    leaves: the former records in the archive, the notice in the live
    log. *)
Example rotation_alone :
  let s := run 8 sample_notice [Rotate; Rotate; Rotate; Rotate; Rotate]
             (start [r1; r2; r3]) in
  at_pc s = Finished /\ archive s = [r1; r2; r3] /\ live s = [sample_notice].
Proof. repeat split. Qed.

End InterleavingFacts.

(** * Further properties of the code *)

(** ** More on the retention sweep *)

Lemma expired_by_entry (t : Z) (w : world) (f : string) :
  expired t w f =
  match dir_lookup f (w_var_log w) with
  | Some n =>
      startswith f "file_changes.log" && n_isfile n
      && (t - n_mtime n >? retention_window)
  | None => false
  end.
Proof.
  unfold expired, isfile, getmtime. rewrite stat_join.
  destruct (dir_lookup f (w_var_log w)) as [n|]; [reflexivity|].
  now rewrite andb_false_r.
Qed.

Lemma expired_same_entry (t : Z) (w w' : world) (f : string) :
  dir_lookup f (w_var_log w') = dir_lookup f (w_var_log w) ->
  expired t w' f = expired t w f.
Proof. intros H. now rewrite !expired_by_entry, H. Qed.

(** The three ways the body of the loop can end. *)
Lemma sweep_one_inv (denied : string -> option exn) (t : Z) (f : string)
  (w : world) :
  (expired t w f = false /\ sweep_one denied t f w = Return w) \/
  (expired t w f = true /\ exists e, sweep_one denied t f w = Raise e w) \/
  (expired t w f = true /\
   sweep_one denied t f w =
   Return (logging_info ("Deleted old log file: " ++ path_join "/var/log" f)
             (set_var_log (dir_remove f (w_var_log w)) w))).
Proof.
  rewrite sweep_one_cases. destruct (expired t w f); [right | now left].
  destruct (os_remove denied (path_join "/var/log" f) w) as [w1|e w1] eqn:E.
  - right. split; [reflexivity|].
    apply os_remove_Return in E as (name & Hk & _ & ->).
    rewrite var_log_key_join in Hk. now injection Hk as <-.
  - left. split; [reflexivity|]. exists e.
    apply os_remove_Raise in E as ->. reflexivity.
Qed.

Lemma final_world_bind (o : outcome) (k : world -> outcome) (w' : world) :
  o >>> k = Return w' -> exists w1, o = Return w1 /\ k w1 = Return w'.
Proof. destruct o as [w1|e w1]; [now exists w1 | discriminate]. Qed.

Lemma sweep_one_time (denied : string -> option exn) (t : Z) (f : string)
  (w : world) :
  w_time (final_world (sweep_one denied t f w)) = w_time w.
Proof.
  destruct (sweep_one_inv denied t f w) as [[_ ->]|[[_ [e ->]]|[_ ->]]];
    try reflexivity.
  cbn [final_world]. unfold logging_info. now rewrite log_emit_time.
Qed.

Lemma sweep_loop_time (denied : string -> option exn) (t : Z)
  (names : list string) :
  forall w, w_time (final_world (sweep_loop denied t names w)) = w_time w.
Proof.
  induction names as [|f names IH]; intros w; [reflexivity|].
  cbn [sweep_loop]. pose proof (sweep_one_time denied t f w) as H1.
  destruct (sweep_one denied t f w) as [w1|e w1]; cbn [bind final_world] in *;
    [now rewrite IH | assumption].
Qed.

(** An induction principle for the loop: a property of worlds that every
    run of the body keeps is kept by the whole loop, however it ends. *)
Lemma sweep_loop_keeps (denied : string -> option exn) (t : Z)
  (P : world -> Prop) :
  (forall f w, P w -> P (final_world (sweep_one denied t f w))) ->
  forall names w, P w -> P (final_world (sweep_loop denied t names w)).
Proof.
  intros Hstep names. induction names as [|f names IH]; intros w Hw;
    [exact Hw|].
  cbn [sweep_loop]. specialize (Hstep f w Hw).
  destruct (sweep_one denied t f w) as [w1|e w1]; cbn [bind final_world] in *;
    [now apply IH | assumption].
Qed.

Lemma foreign_entry_kept_by_body (denied : string -> option exn) (t : Z)
  (f g : string) (w : world) :
  foreign w g ->
  dir_lookup g (w_var_log (final_world (sweep_one denied t f w)))
  = dir_lookup g (w_var_log w).
Proof.
  intros Hg.
  destruct (sweep_one_inv denied t f w) as [[_ ->]|[[_ [e ->]]|[He ->]]];
    try reflexivity.
  cbn [final_world]. rewrite expired_by_entry in He.
  destruct (dir_lookup f (w_var_log w)) as [n|] eqn:Ef; [|discriminate].
  apply andb_prop in He as [He _]. apply andb_prop in He as [Hs Hf].
  assert (Hne : String.eqb f g = false).
  { apply String.eqb_neq. intros ->.
    destruct Hg as [Hg | (n' & Hn' & Hd)]; congruence. }
  unfold logging_info, log_emit. cbn [w_var_log set_var_log w_time].
  destruct (dir_lookup LOG_BASENAME (dir_remove f (w_var_log w)))
    as [m|] eqn:El; [|now apply dir_lookup_remove_ne].
  destruct (n_isfile m) eqn:Em; [|now apply dir_lookup_remove_ne].
  cbn [w_var_log set_var_log].
  destruct (String.eqb LOG_BASENAME g) eqn:Elg.
  - apply String.eqb_eq in Elg. subst g.
    rewrite dir_lookup_remove_ne in El by assumption.
    destruct Hg as [Hg | (n' & Hn' & Hd)]; [discriminate|]. congruence.
  - rewrite dir_lookup_write_ne by assumption.
    now apply dir_lookup_remove_ne.
Qed.

(** X1.  [delete_old_logs] leaves alone every entry whose name does not start
    with [file_changes.log], and every entry that is not a regular file: such
    an entry is the same after the run, whether the run ends normally or
    with an error. *)
Theorem sweep_keeps_foreign_entries
  (denied : string -> option exn) (w : world) (g : string) :
  foreign w g ->
  dir_lookup g (w_var_log (final_world (delete_old_logs denied w)))
  = dir_lookup g (w_var_log w).
Proof.
  intros Hg. unfold delete_old_logs.
  apply (sweep_loop_keeps denied (w_time w)
           (fun w' => dir_lookup g (w_var_log w') = dir_lookup g (w_var_log w)));
    [|reflexivity].
  intros f w1 H1. rewrite <- H1. apply foreign_entry_kept_by_body.
  destruct Hg as [Hg | (n & Hn & Hd)]; [now left | right].
  exists n. split; [congruence | assumption].
Qed.

Lemma sweep_keeps_foreign_entries_witness :
  dir_lookup "syslog"
    (w_var_log (final_world (delete_old_logs no_denial sweep_world)))
  = dir_lookup "syslog" (w_var_log sweep_world).
Proof.
  apply (sweep_keeps_foreign_entries no_denial sweep_world "syslog").
  left. reflexivity.
Defined.

Lemma retention_window_nonneg : 0 <= retention_window.
Proof. unfold retention_window, LOG_RETENTION_DAYS. lia. Qed.

Lemma recent_not_expired (t : Z) (w : world) (g : string) (n : node) :
  dir_lookup g (w_var_log w) = Some n -> recent t n -> expired t w g = false.
Proof.
  intros Hl Hr. rewrite expired_by_entry, Hl.
  replace (t - n_mtime n >? retention_window) with false;
    [now rewrite andb_false_r|].
  symmetry. rewrite Z.gtb_ltb. apply Z.ltb_ge. exact Hr.
Qed.

Lemma recent_entry_kept_by_body (denied : string -> option exn) (f g : string)
  (n : node) (w : world) :
  (exists n', dir_lookup g (w_var_log w) = Some n' /\ recent (w_time w) n' /\
              (g <> LOG_BASENAME -> n' = n)) ->
  let w1 := final_world (sweep_one denied (w_time w) f w) in
  exists n', dir_lookup g (w_var_log w1) = Some n' /\ recent (w_time w1) n' /\
             (g <> LOG_BASENAME -> n' = n).
Proof.
  intros (n' & Hl & Hr & Hsame) w1.
  assert (Ht : w_time w1 = w_time w) by apply sweep_one_time.
  rewrite Ht. subst w1.
  destruct (sweep_one_inv denied (w_time w) f w)
    as [[_ ->]|[[_ [e ->]]|[He ->]]]; try (now exists n').
  cbn [final_world].
  assert (Hne : String.eqb f g = false).
  { apply String.eqb_neq. intros ->.
    rewrite (recent_not_expired _ _ _ _ Hl Hr) in He. discriminate. }
  unfold logging_info, log_emit. cbn [w_var_log set_var_log w_time].
  destruct (dir_lookup LOG_BASENAME (dir_remove f (w_var_log w)))
    as [m|] eqn:El.
  2:{ exists n'. cbn [w_var_log set_var_log].
      now rewrite dir_lookup_remove_ne. }
  destruct (n_isfile m) eqn:Em.
  2:{ exists n'. cbn [w_var_log set_var_log].
      now rewrite dir_lookup_remove_ne. }
  cbn [w_var_log set_var_log].
  destruct (String.eqb LOG_BASENAME g) eqn:Elg.
  - apply String.eqb_eq in Elg. subst g.
    rewrite dir_lookup_write_eq. eexists. split; [reflexivity|].
    split; [|congruence].
    unfold recent, regular. cbn [n_mtime].
    pose proof retention_window_nonneg. lia.
  - rewrite dir_lookup_write_ne, dir_lookup_remove_ne by assumption.
    now exists n'.
Qed.

Lemma recent_entry_kept_by_loop (denied : string -> option exn)
  (names : list string) (w : world) (g : string) (n : node) :
  dir_lookup g (w_var_log w) = Some n ->
  recent (w_time w) n ->
  exists n',
    dir_lookup g
      (w_var_log (final_world (sweep_loop denied (w_time w) names w))) = Some n'
    /\ recent (w_time w) n'
    /\ (g <> LOG_BASENAME -> n' = n).
Proof.
  intros Hl Hr.
  pose proof (sweep_loop_keeps denied (w_time w)
    (fun w' => w_time w' = w_time w /\
       exists n', dir_lookup g (w_var_log w') = Some n' /\
                  recent (w_time w') n' /\ (g <> LOG_BASENAME -> n' = n)))
    as Hk.
  destruct (Hk) with (names := names) (w := w) as [Ht H].
  - intros f w1 [Ht1 H1]. split.
    + now rewrite sweep_one_time.
    + rewrite <- Ht1. now apply recent_entry_kept_by_body.
  - split; [reflexivity|]. now exists n.
  - now rewrite Ht in H.
Qed.

(** X2.  [delete_old_logs] never deletes a file of [/var/log] whose
    modification time lies within the retention time before the run, whether
    the run ends normally or with an error: the entry is still there with a
    modification time within the retention time, and unless it is the live
    log (to which the run may have logged) it is unchanged. *)
Theorem sweep_keeps_recent_entries
  (denied : string -> option exn) (w : world) (g : string) (n : node) :
  dir_lookup g (w_var_log w) = Some n ->
  recent (w_time w) n ->
  exists n',
    dir_lookup g (w_var_log (final_world (delete_old_logs denied w))) = Some n'
    /\ recent (w_time w) n'
    /\ (g <> LOG_BASENAME -> n' = n).
Proof.
  intros Hl Hr. unfold delete_old_logs.
  destruct (recent_entry_kept_by_loop denied (listdir w) w g n Hl Hr)
    as (n' & Hl' & Hr' & Hsame).
  exists n'. repeat split; assumption.
Qed.

Lemma sweep_keeps_recent_entries_witness :
  exists n',
    dir_lookup "file_changes.log_20240511_100000.gz"
      (w_var_log (final_world (delete_old_logs deny_first_archive sweep_world)))
    = Some n'
    /\ recent (w_time sweep_world) n'
    /\ ("file_changes.log_20240511_100000.gz" <> LOG_BASENAME ->
        n' = regular (1715940000 - 6 * day) [GzStream [Line 1715300000 "b"]]).
Proof.
  apply (sweep_keeps_recent_entries deny_first_archive sweep_world
           "file_changes.log_20240511_100000.gz"
           (regular (1715940000 - 6 * day) [GzStream [Line 1715300000 "b"]])).
  - reflexivity.
  - unfold recent. vm_compute. discriminate.
Defined.

(** *** The listing after a run *)

Lemma dir_remove_names_sublist (name : string) (d : list (string * node)) :
  sublist (map fst (dir_remove name d)) (map fst d).
Proof.
  induction d as [|[k m] d IH]; cbn; [constructor|].
  destruct (String.eqb k name); cbn; now constructor.
Qed.

Lemma log_emit_listdir (msg : string) (w : world) :
  listdir (log_emit msg w) = listdir w.
Proof.
  unfold log_emit, listdir.
  destruct (dir_lookup LOG_BASENAME (w_var_log w)) as [n|] eqn:E;
    [|reflexivity].
  destruct (n_isfile n); [|reflexivity].
  cbn [w_var_log set_var_log]. now rewrite dir_write_names, E.
Qed.

Lemma sweep_one_listdir (denied : string -> option exn) (t : Z) (f : string)
  (w : world) :
  sublist (listdir (final_world (sweep_one denied t f w))) (listdir w).
Proof.
  destruct (sweep_one_inv denied t f w) as [[_ ->]|[[_ [e ->]]|[_ ->]]];
    try reflexivity.
  cbn [final_world]. unfold logging_info. rewrite log_emit_listdir.
  apply dir_remove_names_sublist.
Qed.

Lemma sweep_loop_listdir (denied : string -> option exn) (t : Z)
  (names : list string) (w : world) :
  sublist (listdir (final_world (sweep_loop denied t names w))) (listdir w).
Proof.
  apply (sweep_loop_keeps denied t
           (fun w' => sublist (listdir w') (listdir w))); [|reflexivity].
  intros f w1 H1. etransitivity; [apply sweep_one_listdir | exact H1].
Qed.

(** X3.  [delete_old_logs] creates and renames nothing: the listing of
    [/var/log] after the run is a subsequence of the listing before it, in
    the same order, however the run ends; and the clock has not moved. *)
Theorem sweep_only_removes (denied : string -> option exn) (w : world) :
  sublist (listdir (final_world (delete_old_logs denied w))) (listdir w) /\
  w_time (final_world (delete_old_logs denied w)) = w_time w.
Proof.
  unfold delete_old_logs. split.
  - apply sweep_loop_listdir.
  - apply sweep_loop_time.
Qed.

(** *** Running the sweep again *)

Lemma not_expired_kept_by_body (denied : string -> option exn) (f g : string)
  (w : world) :
  expired (w_time w) w g = false ->
  expired (w_time w) (final_world (sweep_one denied (w_time w) f w)) g = false.
Proof.
  intros Hg.
  destruct (sweep_one_inv denied (w_time w) f w)
    as [[_ ->]|[[_ [e ->]]|[He ->]]]; try assumption.
  cbn [final_world].
  rewrite expired_by_entry. unfold logging_info, log_emit.
  cbn [w_var_log set_var_log w_time].
  destruct (String.eqb f g) eqn:Efg.
  { apply String.eqb_eq in Efg. subst g.
    destruct (dir_lookup LOG_BASENAME (dir_remove f (w_var_log w)))
      as [m|] eqn:El; cbn [w_var_log set_var_log].
    - destruct (n_isfile m); cbn [w_var_log set_var_log].
      + destruct (String.eqb LOG_BASENAME f) eqn:Elf.
        * apply String.eqb_eq in Elf. subst f.
          rewrite dir_lookup_remove_eq in El. discriminate.
        * rewrite dir_lookup_write_ne by assumption.
          now rewrite dir_lookup_remove_eq.
      + now rewrite dir_lookup_remove_eq.
    - now rewrite dir_lookup_remove_eq. }
  rewrite expired_by_entry in Hg.
  destruct (dir_lookup LOG_BASENAME (dir_remove f (w_var_log w)))
    as [m|] eqn:El; cbn [w_var_log set_var_log].
  2:{ now rewrite dir_lookup_remove_ne. }
  destruct (n_isfile m); cbn [w_var_log set_var_log].
  2:{ now rewrite dir_lookup_remove_ne. }
  destruct (String.eqb LOG_BASENAME g) eqn:Elg.
  - apply String.eqb_eq in Elg. subst g.
    rewrite dir_lookup_write_eq. unfold regular. cbn [n_isfile n_mtime].
    replace (w_time w - w_time w >? retention_window) with false;
      [now rewrite andb_false_r|].
    symmetry. rewrite Z.gtb_ltb. apply Z.ltb_ge.
    pose proof retention_window_nonneg. lia.
  - rewrite dir_lookup_write_ne by assumption.
    now rewrite dir_lookup_remove_ne.
Qed.

Lemma expired_gone_after_body (denied : string -> option exn) (f : string)
  (w w1 : world) :
  sweep_one denied (w_time w) f w = Return w1 ->
  expired (w_time w) w1 f = false.
Proof.
  intros H. destruct (expired (w_time w) w f) eqn:He.
  - rewrite expired_by_entry.
    now rewrite (sweep_one_removes denied (w_time w) f w w1 He H).
  - pose proof (not_expired_kept_by_body denied f f w He) as Hk.
    now rewrite H in Hk.
Qed.

Lemma nothing_expired_after_loop (denied : string -> option exn)
  (names : list string) :
  forall w w',
    sweep_loop denied (w_time w) names w = Return w' ->
    forall g, g ∈ names -> expired (w_time w) w' g = false.
Proof.
  induction names as [|f names IH]; intros w w' Hrun g Hg;
    [inversion Hg|].
  cbn [sweep_loop] in Hrun.
  apply final_world_bind in Hrun as (w1 & H1 & Hrest).
  assert (Ht1 : w_time w1 = w_time w).
  { pose proof (sweep_one_time denied (w_time w) f w) as Ht.
    now rewrite H1 in Ht. }
  destruct (decide (g ∈ names)) as [Hin | Hnotin].
  - rewrite <- Ht1 in *. now apply (IH w1 w').
  - apply elem_of_cons in Hg as [-> | Hg]; [|contradiction].
    pose proof (expired_gone_after_body denied f w w1 H1) as Hf.
    pose proof (sweep_loop_keeps denied (w_time w)
      (fun w2 => w_time w2 = w_time w /\ expired (w_time w) w2 f = false))
      as Hk.
    destruct (Hk) with (names := names) (w := w1) as [_ Hfin].
    + intros f' w2 [Ht2 H2]. split; [now rewrite sweep_one_time|].
      rewrite <- Ht2 in *. now apply not_expired_kept_by_body.
    + now split.
    + now rewrite Hrest in Hfin.
Qed.

(** X4.  A run of [delete_old_logs] that ended normally has left nothing for
    a second run at the same time: the second run, whatever the system would
    refuse, returns normally and changes nothing, not even the live log. *)
Theorem sweep_twice (denied denied' : string -> option exn) (w w' : world) :
  delete_old_logs denied w = Return w' ->
  delete_old_logs denied' w' = Return w'.
Proof.
  intros Hrun.
  pose proof (sweep_loop_listdir denied (w_time w) (listdir w) w) as Hsub.
  pose proof (sweep_loop_time denied (w_time w) (listdir w) w) as Ht.
  unfold delete_old_logs in Hrun.
  rewrite Hrun in Hsub, Ht. cbn [final_world] in Hsub, Ht.
  unfold delete_old_logs. apply sweep_loop_nothing_expired.
  intros g Hg. rewrite Ht.
  apply (nothing_expired_after_loop denied (listdir w) w w' Hrun).
  eapply elem_of_sublist; eassumption.
Qed.

Lemma sweep_twice_witness :
  delete_old_logs deny_first_archive
    (final_world (delete_old_logs no_denial sweep_world))
  = Return (final_world (delete_old_logs no_denial sweep_world)).
Proof.
  apply (sweep_twice no_denial deny_first_archive sweep_world).
  reflexivity.
Defined.

(** *** What the sweep writes to the live log *)

Lemma sweep_loop_log (denied : string -> option exn) (t : Z)
  (names : list string) :
  forall (w w' : world) (n0 : node),
    NoDup names ->
    dir_lookup LOG_BASENAME (w_var_log w) = Some n0 ->
    n_isfile n0 = true -> recent t n0 -> w_time w = t ->
    sweep_loop denied t names w = Return w' ->
    exists n',
      dir_lookup LOG_BASENAME (w_var_log w') = Some n' /\
      n_data n' =
      (n_data n0 ++ map (deletion_record t) (List.filter (expired t w) names))%list.
Proof.
  induction names as [|f names IH]; intros w w' n0 Hnd Hl Hf Hr Ht Hrun.
  - injection Hrun as <-. exists n0. now rewrite app_nil_r.
  - apply NoDup_cons in Hnd as [Hfresh Hnd]. cbn [sweep_loop] in Hrun.
    apply final_world_bind in Hrun as (w1 & H1 & Hrest).
    destruct (sweep_one_inv denied t f w) as [[He E]|[[He [e E]]|[He E]]];
      rewrite E in H1; try discriminate; injection H1 as <-.
    + cbn [List.filter]. rewrite He. now apply (IH w w' n0).
    + cbn [List.filter]. rewrite He.
      assert (Hne : String.eqb f LOG_BASENAME = false).
      { apply String.eqb_neq. intros ->.
        rewrite (recent_not_expired t w _ n0 Hl Hr) in He. discriminate. }
      set (msg := "Deleted old log file: " ++ path_join "/var/log" f) in *.
      set (w0 := set_var_log (dir_remove f (w_var_log w)) w) in *.
      assert (Hl0 : dir_lookup LOG_BASENAME (w_var_log w0) = Some n0).
      { unfold w0. cbn [w_var_log set_var_log].
        now rewrite dir_lookup_remove_ne. }
      set (n1 := regular (w_time w0) (n_data n0 ++ [Line (w_time w0) msg])%list).
      assert (Hw1 : logging_info msg w0 =
                    set_var_log (dir_write LOG_BASENAME n1 (w_var_log w0)) w0).
      { unfold logging_info, log_emit. now rewrite Hl0, Hf. }
      rewrite Hw1 in Hrest.
      assert (Ht0 : w_time w0 = t) by exact Ht.
      destruct (IH (set_var_log (dir_write LOG_BASENAME n1 (w_var_log w0)) w0)
                  w' n1 Hnd) as (n' & Hl' & Hd'); try assumption.
      * cbn [w_var_log set_var_log]. apply dir_lookup_write_eq.
      * reflexivity.
      * unfold recent, n1, regular. cbn [n_mtime].
        pose proof retention_window_nonneg. lia.
      * exists n'. split; [exact Hl'|]. rewrite Hd'.
        unfold n1, regular. cbn [n_data map]. rewrite Ht0.
        rewrite <- app_assoc. cbn [app]. do 3 f_equal.
        apply List.filter_ext_in. intros g Hg.
        apply list_elem_of_In in Hg.
        assert (Hgf : String.eqb f g = false).
        { apply String.eqb_neq. intros ->. contradiction. }
        rewrite !expired_by_entry. cbn [w_var_log set_var_log].
        destruct (String.eqb LOG_BASENAME g) eqn:Elg.
        -- apply String.eqb_eq in Elg. subst g.
           rewrite dir_lookup_write_eq, Hl.
           unfold n1, regular. cbn [n_isfile n_mtime]. rewrite ?Ht0, Hf.
           f_equal. rewrite !Z.gtb_ltb.
           pose proof retention_window_nonneg. unfold recent in Hr.
           transitivity false; [|symmetry]; apply Z.ltb_ge; lia.
        -- rewrite dir_lookup_write_ne by assumption. unfold w0.
           cbn [w_var_log set_var_log].
           now rewrite dir_lookup_remove_ne.
Qed.

(** X5.  In a run of [delete_old_logs] that deletes without failure, with a
    live log written to within the retention time, the run appends to the
    live log one record per file it deletes, in the order of the listing,
    and nothing else: the live log afterwards is the live log before
    followed by those records. *)
Theorem sweep_logs_each_deletion
  (denied : string -> option exn) (w w' : world) (n0 : node) :
  NoDup (listdir w) ->
  stat LOG_FILE w = Some n0 ->
  n_isfile n0 = true ->
  recent (w_time w) n0 ->
  delete_old_logs denied w = Return w' ->
  live_log w' =
  (live_log w ++
   map (deletion_record (w_time w))
       (List.filter (expired (w_time w) w) (listdir w)))%list.
Proof.
  intros Hnd Hl Hf Hr Hrun.
  destruct (sweep_loop_log denied (w_time w) (listdir w) w w' n0)
    as (n' & Hl' & Hd'); try assumption; try reflexivity.
  unfold live_log. rewrite stat_live_log, Hl', Hl. exact Hd'.
Qed.

Lemma sweep_logs_each_deletion_witness :
  live_log (final_world (delete_old_logs no_denial two_old_archives_world)) =
  (live_log two_old_archives_world ++
   map (deletion_record (w_time two_old_archives_world))
       (List.filter (expired (w_time two_old_archives_world)
                       two_old_archives_world)
          (listdir two_old_archives_world)))%list.
Proof.
  apply (sweep_logs_each_deletion no_denial two_old_archives_world
           (final_world (delete_old_logs no_denial two_old_archives_world))
           (regular (1715940000 - 10) [Line 1715939990 "c"])).
  - apply (bool_decide_unpack _). vm_compute. exact I.
  - reflexivity.
  - reflexivity.
  - unfold recent. vm_compute. discriminate.
  - reflexivity.
Defined.

(** ** More on the rotation *)

(** The world a successful rotation leaves, written out. *)
Lemma compress_log_world (flt : option rotation_fault) (w w3 : world) :
  compress_log flt w = Return w3 ->
  exists old,
    stat LOG_FILE w = Some old /\ n_isfile old = true /\
    w3 = set_var_log
           (dir_write LOG_BASENAME (regular (w_time w) [rotation_notice w])
              (dir_write LOG_BASENAME (regular (w_time w) [])
                 (dir_write (archive_basename w)
                    (regular (w_time w) [GzStream (n_data old)])
                    (w_var_log w)))) w.
Proof.
  intros H.
  apply compress_log_Return in H
    as (old & w1 & w2 & Hold & Hf & Hw1 & _ & Hw2 & _ & ->).
  exists old. split; [exact Hold|]. split; [exact Hf|].
  apply write_file_Return in Hw1 as (k1 & Hk1 & ->).
  rewrite archive_key in Hk1. injection Hk1 as <-.
  apply write_file_Return in Hw2 as (k2 & Hk2 & ->).
  injection Hk2 as <-.
  unfold logging_info, log_emit, LOG_BASENAME.
  cbn [w_time w_var_log set_var_log].
  rewrite dir_lookup_write_eq. cbn [n_isfile n_data regular app].
  reflexivity.
Qed.

Lemma write_file_lookup_ne (path name g : string) (data : list segment)
  (w : world) :
  var_log_key path = Some name -> String.eqb name g = false ->
  dir_lookup g (w_var_log (final_world (write_file path data w)))
  = dir_lookup g (w_var_log w).
Proof.
  intros Hk Hne. unfold write_file. rewrite Hk.
  destruct (dir_lookup name (w_var_log w)) as [n|];
    [destruct (n_isfile n)|]; cbn [final_world w_var_log set_var_log];
    try reflexivity; now apply dir_lookup_write_ne.
Qed.

(** X6.  [compress_log] touches two entries of [/var/log] only, the live log
    and the archive it names after the time of the call: every other entry
    is the same after the call, whether it returns or raises. *)
Theorem rotation_keeps_other_entries
  (flt : option rotation_fault) (w : world) (g : string) :
  g <> LOG_BASENAME ->
  g <> archive_basename w ->
  dir_lookup g (w_var_log (final_world (compress_log flt w)))
  = dir_lookup g (w_var_log w).
Proof.
  intros Hlive Harch.
  assert (Hl : String.eqb LOG_BASENAME g = false)
    by (apply String.eqb_neq; congruence).
  assert (Ha : String.eqb (archive_basename w) g = false)
    by (apply String.eqb_neq; congruence).
  assert (Hwa : forall data w0,
    dir_lookup g (w_var_log
      (final_world (write_file (compressed_log_name w) data w0)))
    = dir_lookup g (w_var_log w0)).
  { intros data w0. eapply write_file_lookup_ne; [apply archive_key | exact Ha]. }
  assert (H1 : dir_lookup g (w_var_log
                 (final_world (archive_step flt (compressed_log_name w) w)))
               = dir_lookup g (w_var_log w)).
  { unfold archive_step. destruct (open_rb flt LOG_FILE w) as [e|data];
      [reflexivity|].
    destruct flt as [[e|e|k e|e]|]; try reflexivity; try apply Hwa.
    specialize (Hwa [GzStream (take k data)] w).
    now destruct (write_file _ _ w). }
  unfold compress_log.
  destruct (archive_step flt (compressed_log_name w) w) as [w1|e w1];
    cbn [bind final_world] in *; [|exact H1].
  rewrite <- H1.
  assert (H2 : dir_lookup g (w_var_log (final_world (truncate_step flt w1)))
               = dir_lookup g (w_var_log w1)).
  { unfold truncate_step.
    destruct flt as [[e|e|k e|e]|]; try reflexivity;
      now apply (write_file_lookup_ne LOG_FILE LOG_BASENAME). }
  destruct (truncate_step flt w1) as [w2|e w2];
    cbn [bind final_world announce_step] in *; [|exact H2].
  rewrite <- H2. unfold logging_info. now apply log_emit_lookup_ne.
Qed.

Lemma rotation_keeps_other_entries_witness :
  dir_lookup "syslog"
    (w_var_log (final_world (compress_log None sample_world)))
  = dir_lookup "syslog" (w_var_log sample_world).
Proof.
  apply (rotation_keeps_other_entries None sample_world "syslog");
    discriminate.
Defined.

(** X7.  When the truncation fails, [compress_log] raises after the archive
    has been written: the archive holds the whole live log, and the live log
    still holds it too, so the records now exist twice. *)
Theorem truncation_failure_leaves_both
  (e : exn) (w : world) (old : node) :
  stat LOG_FILE w = Some old ->
  n_isfile old = true ->
  (forall m, dir_lookup (archive_basename w) (w_var_log w) = Some m ->
             n_isfile m = true) ->
  exists w',
    compress_log (Some (AtTruncate e)) w = Raise e w' /\
    stat (compressed_log_name w) w'
      = Some (regular (w_time w) [GzStream (n_data old)]) /\
    stat LOG_FILE w' = Some old.
Proof.
  intros Hold Hf Harch.
  unfold compress_log, archive_step, open_rb. rewrite Hold, Hf.
  unfold write_file. rewrite archive_key.
  assert (Hret : forall d,
    (match dir_lookup (archive_basename w) (w_var_log w) with
     | Some n =>
         if n_isfile n
         then Return (set_var_log (dir_write (archive_basename w)
                        (regular (w_time w) d) (w_var_log w)) w)
         else Raise IsADirectoryError w
     | None => Return (set_var_log (dir_write (archive_basename w)
                         (regular (w_time w) d) (w_var_log w)) w)
     end) = Return (set_var_log (dir_write (archive_basename w)
                      (regular (w_time w) d) (w_var_log w)) w)).
  { intros d. destruct (dir_lookup (archive_basename w) (w_var_log w))
      as [m|] eqn:E; [|reflexivity].
    now rewrite (Harch m eq_refl). }
  rewrite Hret. cbn [bind truncate_step].
  eexists. split; [reflexivity|].
  rewrite stat_archive, stat_live_log. cbn [w_var_log set_var_log].
  split; [apply dir_lookup_write_eq|].
  rewrite dir_lookup_write_ne by reflexivity. now rewrite <- stat_live_log.
Qed.

Lemma truncation_failure_leaves_both_witness :
  exists w',
    compress_log (Some (AtTruncate PermissionError)) sample_world
      = Raise PermissionError w' /\
    stat (compressed_log_name sample_world) w'
      = Some (regular (w_time sample_world)
                [GzStream [Line 999980 "✨ Created: /etc/motd";
                           Line 999990 "🔄 Modified: /etc/motd"]]) /\
    stat LOG_FILE w'
      = Some (regular 999990 [Line 999980 "✨ Created: /etc/motd";
                              Line 999990 "🔄 Modified: /etc/motd"]).
Proof.
  apply (truncation_failure_leaves_both PermissionError sample_world
           (regular 999990 [Line 999980 "✨ Created: /etc/motd";
                            Line 999990 "🔄 Modified: /etc/motd"])).
  - reflexivity.
  - reflexivity.
  - intros m H. discriminate H.
Defined.

(** X8.  The archive's name has the time to the second and nothing else, and
    [gzip.open] overwrites: a second successful rotation before the clock
    moves writes to the archive of the first.  Afterwards that archive holds
    the first rotation's notice only, and the records the first rotation had
    archived are in no file. *)
Theorem second_rotation_overwrites_archive
  (flt flt' : option rotation_fault) (w w1 w2 : world) :
  compress_log flt w = Return w1 ->
  compress_log flt' w1 = Return w2 ->
  compressed_log_name w1 = compressed_log_name w /\
  stat (compressed_log_name w) w2
    = Some (regular (w_time w) [GzStream [rotation_notice w]]) /\
  live_log w2 = [rotation_notice w].
Proof.
  intros H1 H2.
  apply compress_log_world in H1 as (old & Hold & Hf & ->).
  apply compress_log_world in H2 as (old1 & Hold1 & Hf1 & ->).
  split; [reflexivity|].
  rewrite stat_live_log in Hold1. cbn [w_var_log set_var_log] in Hold1.
  rewrite dir_lookup_write_eq in Hold1. injection Hold1 as <-.
  unfold live_log. rewrite stat_archive, stat_live_log.
  cbn [w_var_log set_var_log w_time].
  change (archive_basename
            (set_var_log
               (dir_write LOG_BASENAME (regular (w_time w) [rotation_notice w])
                  (dir_write LOG_BASENAME (regular (w_time w) [])
                     (dir_write (archive_basename w)
                        (regular (w_time w) [GzStream (n_data old)])
                        (w_var_log w)))) w))
    with (archive_basename w).
  split.
  - rewrite !dir_lookup_write_ne by reflexivity.
    rewrite dir_lookup_write_eq. reflexivity.
  - now rewrite dir_lookup_write_eq.
Qed.

Lemma second_rotation_overwrites_archive_witness :
  let w1 := final_world (compress_log None sample_world) in
  let w2 := final_world (compress_log None w1) in
  compressed_log_name w1 = compressed_log_name sample_world /\
  stat (compressed_log_name sample_world) w2
    = Some (regular (w_time sample_world)
              [GzStream [rotation_notice sample_world]]) /\
  live_log w2 = [rotation_notice sample_world].
Proof.
  apply (second_rotation_overwrites_archive None None sample_world); reflexivity.
Defined.

(** *** Archive names and times *)

Lemma digit_of_inj (a b : Z) :
  0 <= a <= 9 -> 0 <= b <= 9 -> digit_of a = digit_of b -> a = b.
Proof.
  intros Ha Hb.
  assert (Ea : a = 0 \/ a = 1 \/ a = 2 \/ a = 3 \/ a = 4 \/ a = 5 \/ a = 6 \/
               a = 7 \/ a = 8 \/ a = 9) by lia.
  assert (Eb : b = 0 \/ b = 1 \/ b = 2 \/ b = 3 \/ b = 4 \/ b = 5 \/ b = 6 \/
               b = 7 \/ b = 8 \/ b = 9) by lia.
  repeat (destruct Ea as [-> | Ea]);
    repeat (destruct Eb as [-> | Eb]); subst;
    (reflexivity || (intros H; vm_compute in H; discriminate H)).
Qed.

Lemma two_digits_inj (n m : Z) :
  0 <= n <= 99 -> 0 <= m <= 99 ->
  digit_of (n / 10) = digit_of (m / 10) ->
  digit_of (n mod 10) = digit_of (m mod 10) ->
  n = m.
Proof.
  intros Hn Hm Hq Hr.
  apply digit_of_inj in Hq; [|Z.div_mod_to_equations; lia..].
  apply digit_of_inj in Hr; [|Z.div_mod_to_equations; lia..].
  rewrite (Z.div_mod n 10), (Z.div_mod m 10) by lia. congruence.
Qed.

Lemma strftime_inj (d d' : datetime) :
  valid_datetime d -> valid_datetime d' -> strftime d = strftime d' -> d = d'.
Proof.
  intros (Hy & Hm & Hd & Hh & Hi & Hs) (Hy' & Hm' & Hd' & Hh' & Hi' & Hs').
  rewrite !strftime_chars. intros H.
  injection H as Y1 Y2 Y3 Y4 M1 M2 D1 D2 H1 H2 I1 I2 S1 S2.
  assert (Eyh : dt_year d / 100 = dt_year d' / 100)
    by (apply two_digits_inj; try assumption; Z.div_mod_to_equations; lia).
  assert (Eyl : dt_year d mod 100 = dt_year d' mod 100)
    by (apply two_digits_inj; try assumption; Z.div_mod_to_equations; lia).
  assert (Ey : dt_year d = dt_year d').
  { rewrite (Z.div_mod (dt_year d) 100), (Z.div_mod (dt_year d') 100) by lia.
    congruence. }
  assert (Em : dt_month d = dt_month d')
    by (apply two_digits_inj; try assumption; lia).
  assert (Ed : dt_day d = dt_day d')
    by (apply two_digits_inj; try assumption; lia).
  assert (Eh : dt_hour d = dt_hour d')
    by (apply two_digits_inj; try assumption; lia).
  assert (Ei : dt_minute d = dt_minute d')
    by (apply two_digits_inj; try assumption; lia).
  assert (Es : dt_second d = dt_second d')
    by (apply two_digits_inj; try assumption; lia).
  destruct d, d'; cbn in *; congruence.
Qed.

(** X9.  Two calls of [compress_log] give their archives the same name only
    if the local time of the two calls is the same to the second: rotations
    at different local times never write to each other's archive. *)
Theorem archive_name_determines_time (w w' : world) :
  valid_datetime (datetime_now w) ->
  valid_datetime (datetime_now w') ->
  compressed_log_name w = compressed_log_name w' ->
  datetime_now w = datetime_now w'.
Proof.
  intros Hv Hv' H. apply strftime_inj; try assumption.
  unfold compressed_log_name in H. rewrite !strftime_chars in H.
  rewrite !strftime_chars.
  cbv beta iota delta [String.append LOG_FILE] in H.
  injection H as -> -> -> -> -> -> -> -> -> -> -> -> -> ->.
  reflexivity.
Qed.

Lemma archive_name_determines_time_witness :
  datetime_now sample_world
  = datetime_now (set_var_log [] sample_world).
Proof.
  apply (archive_name_determines_time sample_world
           (set_var_log [] sample_world)).
  - unfold valid_datetime. vm_compute. intuition discriminate.
  - unfold valid_datetime. vm_compute. intuition discriminate.
  - reflexivity.
Defined.

(** ** More on the loop of [main] *)

Lemma write_file_Raise_exn (path : string) (data : list segment)
  (w w' : world) (e : exn) :
  write_file path data w = Raise e w' -> is_Exception e = true.
Proof.
  unfold write_file. destruct (var_log_key path) as [name|].
  - destruct (dir_lookup name (w_var_log w)) as [n|]; [|discriminate].
    destruct (n_isfile n); [discriminate|]. now intros [= <- _].
  - now intros [= <- _].
Qed.

(** What [compress_log] raises is an ordinary error of the file system or
    the exception of the fault it met. *)
Lemma compress_log_Raise_exn (flt : option rotation_fault) (w w' : world)
  (e : exn) :
  compress_log flt w = Raise e w' ->
  is_Exception e = true \/ fault_exn flt = Some e.
Proof.
  unfold compress_log.
  destruct (archive_step flt (compressed_log_name w) w) as [w1|e1 w1] eqn:Ea.
  - cbn [bind].
    destruct (truncate_step flt w1) as [w2|e2 w2] eqn:Et; [discriminate|].
    cbn [bind]. intros [= <- _]. unfold truncate_step in Et.
    destruct flt as [[x|x|k x|x]|];
      try (left; eapply write_file_Raise_exn; eassumption).
    right. now injection Et as <- _.
  - cbn [bind]. intros [= <- _]. unfold archive_step, open_rb in Ea.
    destruct flt as [[x|x|k x|x]|].
    + right. now injection Ea as <- _.
    + destruct (stat LOG_FILE w) as [n|]; [destruct (n_isfile n)|];
        injection Ea as <- _; auto.
    + destruct (stat LOG_FILE w) as [n|]; [destruct (n_isfile n)|];
        try (injection Ea as <- _; auto).
      destruct (write_file _ _ w) as [w0|e0 w0] eqn:Ew; cbn [bind] in Ea.
      * right. now injection Ea as <- _.
      * left. injection Ea as <- _. eapply write_file_Raise_exn; eassumption.
    + destruct (stat LOG_FILE w) as [n|]; [destruct (n_isfile n)|];
        try (injection Ea as <- _; auto).
      left. eapply write_file_Raise_exn; eassumption.
    + destruct (stat LOG_FILE w) as [n|]; [destruct (n_isfile n)|];
        try (injection Ea as <- _; auto).
      left. eapply write_file_Raise_exn; eassumption.
Qed.

Lemma sweep_loop_Raise_exn (denied : string -> option exn) (t : Z)
  (names : list string) :
  forall (w w' : world) (e : exn),
    sweep_loop denied t names w = Raise e w' ->
    is_Exception e = true \/ exists p, denied p = Some e.
Proof.
  induction names as [|f names IH]; intros w w' e H; [discriminate|].
  cbn [sweep_loop] in H.
  destruct (sweep_one denied t f w) as [w1|e1 w1] eqn:E1; cbn [bind] in H;
    [now apply (IH w1 w')|].
  injection H as <- _. rewrite sweep_one_cases in E1.
  destruct (expired t w f); [|discriminate].
  unfold os_remove in E1.
  destruct (denied (path_join "/var/log" f)) as [x|] eqn:Ed.
  - right. exists (path_join "/var/log" f). cbn [bind] in E1. congruence.
  - destruct (var_log_key (path_join "/var/log" f)) as [name|];
      [destruct (dir_lookup name (w_var_log w))|]; cbn [bind] in E1;
      try discriminate; injection E1 as <- _; now left.
Qed.

(** In an ordinary pass whatever the body raises is an [Exception]. *)
Lemma ordinary_body_exn (t : tick) (w w' : world) (e : exn) :
  ordinary t -> snd (try_body t w) = Raise e w' -> is_Exception e = true.
Proof.
  intros (Hi & Hflt & Hden). unfold try_body, interruptible. rewrite Hi.
  destruct (compress_log (t_fault t) w) as [w1|e1 w1] eqn:E1.
  - unfold time_sleep.
    destruct (delete_old_logs (t_denied t) _) as [w3|e3 w3] eqn:E3;
      cbn [snd]; [discriminate|].
    intros [= <- _]. unfold delete_old_logs in E3.
    apply sweep_loop_Raise_exn in E3 as [H | [p H]]; [exact H|].
    eapply Hden, H.
  - cbn [snd]. intros [= <- _].
    apply compress_log_Raise_exn in E1 as [H | H]; [exact H|].
    now apply Hflt.
Qed.

Lemma ordinary_iter (t : tick) (w : world) :
  ordinary t ->
  goes_on (main_iter t w) = true /\
  length (List.filter has_raised (trace_of (main_iter t w)))
  = length (List.filter is_log_error (trace_of (main_iter t w))) /\
  List.filter is_stop (trace_of (main_iter t w)) = [].
Proof.
  intros Hord. pose proof (ordinary_body_exn t w) as Hexn.
  specialize (fun w' e => Hexn w' e Hord).
  unfold main_iter, goes_on, trace_of.
  destruct Hord as (Hi & _ & _).
  unfold try_body, interruptible in *. rewrite Hi in *.
  destruct (compress_log (t_fault t) w) as [w1|e1 w1].
  - unfold time_sleep in *.
    destruct (delete_old_logs (t_denied t) _) as [w3|e3 w3];
      cbn [snd fst] in *; [now repeat split|].
    rewrite (Hexn w3 e3 eq_refl). now repeat split.
  - cbn [snd fst] in *. rewrite (Hexn w1 e1 eq_refl). now repeat split.
Qed.

(** X10.  As long as no Ctrl-C arrives, the loop of [main] does not end:
    after any number of passes, whatever failed in them, it is still
    running; every call that raised was followed by one call of
    [logging.error]; and the observer was never stopped. *)
Theorem loop_survives_errors (ticks : list tick) (w : world) :
  Forall ordinary ticks ->
  goes_on (main_loop ticks w) = true /\
  length (List.filter has_raised (trace_of (main_loop ticks w)))
  = length (List.filter is_log_error (trace_of (main_loop ticks w))) /\
  List.filter is_stop (trace_of (main_loop ticks w)) = [].
Proof.
  intros Hall. revert w.
  induction Hall as [|t ticks Ht Hall IH]; intros w; [now repeat split|].
  cbn [main_loop].
  destruct (ordinary_iter t w Ht) as (Hgo & Hlen & Hstop).
  destruct (main_iter t w) as [[tr w1] go]. unfold goes_on, trace_of in *.
  cbn [fst snd] in *. subst go.
  destruct (IH w1) as (Hgo' & Hlen' & Hstop').
  destruct (main_loop ticks w1) as [[tr' w2] go']. cbn [fst snd] in *.
  split; [exact Hgo'|].
  rewrite !List.filter_app, !length_app, Hstop, Hstop'.
  split; [lia | reflexivity].
Qed.

Lemma loop_survives_errors_witness :
  goes_on (main_loop [unreadable_tick; quiet_tick] sample_world) = true /\
  length (List.filter has_raised
            (trace_of (main_loop [unreadable_tick; quiet_tick] sample_world)))
  = length (List.filter is_log_error
              (trace_of (main_loop [unreadable_tick; quiet_tick] sample_world)))
  /\ List.filter is_stop
       (trace_of (main_loop [unreadable_tick; quiet_tick] sample_world)) = [].
Proof.
  apply (loop_survives_errors [unreadable_tick; quiet_tick] sample_world).
  repeat constructor; cbn; try discriminate; intros; try discriminate;
    match goal with H : Some _ = Some _ |- _ => now injection H as <- end.
Defined.

(** X11.  Ctrl-C while the loop sleeps, after a rotation that succeeded:
    the sweep of that pass is not run and no later pass starts; the observer
    is stopped and the stop is logged; and every entry of [/var/log] other
    than the live log is as the rotation left it. *)
Theorem interrupt_during_sleep
  (t : tick) (rest : list tick) (w w1 : world) :
  t_interrupt t = Some InSleep ->
  compress_log (t_fault t) w = Return w1 ->
  map s_call (trace_of (main_loop (t :: rest) w))
    = [CompressLog; Sleep; ObserverStop; LogStopped] /\
  map s_raised (trace_of (main_loop (t :: rest) w))
    = [None; Some KeyboardInterrupt; None; None] /\
  goes_on (main_loop (t :: rest) w) = false /\
  (forall g, g <> LOG_BASENAME ->
     dir_lookup g (w_var_log (world_of (main_loop (t :: rest) w)))
     = dir_lookup g (w_var_log w1)).
Proof.
  intros Hi Hc.
  assert (Hrun : main_loop (t :: rest) w =
    ([ record_call CompressLog w (Return w1);
       record_call Sleep w1 (Raise KeyboardInterrupt w1);
       record_call ObserverStop w1 (Return w1);
       record_call LogStopped w1
         (Return (logging_info stopped_message w1)) ],
     logging_info stopped_message w1, false)).
  { cbn [main_loop]. unfold main_iter, try_body, interruptible.
    rewrite Hi, Hc. reflexivity. }
  rewrite Hrun. unfold trace_of, goes_on, world_of. cbn [fst snd map].
  repeat split.
  intros g Hg. unfold logging_info. apply log_emit_lookup_ne.
  apply String.eqb_neq. congruence.
Qed.

Lemma interrupt_during_sleep_witness :
  map s_call
    (trace_of (main_loop [interrupted_sleep_tick; quiet_tick] sample_world))
    = [CompressLog; Sleep; ObserverStop; LogStopped] /\
  map s_raised
    (trace_of (main_loop [interrupted_sleep_tick; quiet_tick] sample_world))
    = [None; Some KeyboardInterrupt; None; None] /\
  goes_on (main_loop [interrupted_sleep_tick; quiet_tick] sample_world)
    = false /\
  (forall g, g <> LOG_BASENAME ->
     dir_lookup g
       (w_var_log
          (world_of
             (main_loop [interrupted_sleep_tick; quiet_tick] sample_world)))
     = dir_lookup g
         (w_var_log (final_world (compress_log None sample_world)))).
Proof.
  apply (interrupt_during_sleep interrupted_sleep_tick [quiet_tick]
           sample_world (final_world (compress_log None sample_world)));
    reflexivity.
Defined.

Lemma compress_log_without_live_log (flt : option rotation_fault) (w : world) :
  stat LOG_FILE w = None -> exists e, compress_log flt w = Raise e w.
Proof.
  intros H. unfold compress_log, archive_step, open_rb. rewrite H.
  destruct flt as [[x|x|k x|x]|]; eexists; reflexivity.
Qed.

Lemma log_emit_without_live_log (msg : string) (w : world) :
  stat LOG_FILE w = None -> log_emit msg w = w.
Proof.
  intros H. unfold log_emit. rewrite stat_live_log in H. now rewrite H.
Qed.

Lemma iter_without_live_log (t : tick) (w : world) :
  stat LOG_FILE w = None -> ordinary t ->
  exists e,
    main_iter t w =
    ([ {| s_call := CompressLog; s_at := w_time w; s_raised := Some e |};
       {| s_call := LogError; s_at := w_time w; s_raised := None |} ],
     w, true).
Proof.
  intros Hnone Hord.
  destruct (compress_log_without_live_log (t_fault t) w Hnone) as [e He].
  assert (Hexn : is_Exception e = true).
  { apply (ordinary_body_exn t w w e Hord).
    destruct Hord as (Hi & _ & _).
    unfold try_body, interruptible. now rewrite Hi, He. }
  destruct Hord as (Hi & _ & _).
  exists e. unfold main_iter, try_body, interruptible.
  rewrite Hi, He, Hexn. unfold logging_error.
  rewrite log_emit_without_live_log by assumption. reflexivity.
Qed.

(** X12.  Once [LOG_FILE] is gone (the sweep can delete it), the loop
    neither sleeps nor sweeps any more: every pass consists of a call of
    [compress_log], which fails on opening the file, and of the logging of
    the error, which goes to a handler whose file is no longer in the
    directory; the directory stays as it is, pass after pass. *)
Theorem loop_spins_without_live_log (ticks : list tick) (w : world) :
  stat LOG_FILE w = None ->
  Forall ordinary ticks ->
  w_var_log (world_of (main_loop ticks w)) = w_var_log w /\
  goes_on (main_loop ticks w) = true /\
  map (fun s => (s_call s, has_raised s)) (trace_of (main_loop ticks w))
  = concat (map (fun _ => [(CompressLog, true); (LogError, false)]) ticks).
Proof.
  intros Hnone Hall.
  assert (H : world_of (main_loop ticks w) = w /\
              goes_on (main_loop ticks w) = true /\
              map (fun s => (s_call s, has_raised s))
                  (trace_of (main_loop ticks w))
              = concat (map (fun _ => [(CompressLog, true); (LogError, false)])
                          ticks)).
  { induction Hall as [|t ticks Ht Hall IH]; [now repeat split|].
    cbn [main_loop]. destruct (iter_without_live_log t w Hnone Ht) as [e ->].
    destruct IH as (Hw & Hgo & Htr).
    destruct (main_loop ticks w) as [[tr' w2] go'].
    unfold world_of, goes_on, trace_of in *. cbn [fst snd] in *.
    repeat split; try assumption.
    cbn [map concat app]. now rewrite Htr. }
  destruct H as (-> & Hgo & Htr). now repeat split.
Qed.

Lemma loop_spins_without_live_log_witness :
  w_var_log (world_of (main_loop [quiet_tick; quiet_tick] orphaned_world))
  = w_var_log orphaned_world /\
  goes_on (main_loop [quiet_tick; quiet_tick] orphaned_world) = true /\
  map (fun s => (s_call s, has_raised s))
      (trace_of (main_loop [quiet_tick; quiet_tick] orphaned_world))
  = concat (map (fun _ => [(CompressLog, true); (LogError, false)])
              [quiet_tick; quiet_tick]).
Proof.
  apply (loop_spins_without_live_log [quiet_tick; quiet_tick] orphaned_world).
  - reflexivity.
  - repeat constructor; cbn; intros; discriminate.
Defined.

(** ** More on the event handler and the watched paths *)

(** X13.  The message of a record tells the kind of the event, and for
    created, modified and deleted files also the path: two events on files
    that are logged with the same message are of the same kind, and unless
    they are moves they have the same source path. *)
Theorem record_determines_event (e1 e2 : event) :
  is_directory e1 = false ->
  is_directory e2 = false ->
  FileMonitorHandler.dispatch e1 = FileMonitorHandler.dispatch e2 ->
  event_type e1 = event_type e2 /\
  (event_type e1 <> Moved -> src_path e1 = src_path e2).
Proof.
  destruct e1 as [k1 s1 d1 dir1], e2 as [k2 s2 d2 dir2]. cbn.
  intros -> -> H.
  destruct k1, k2;
    cbv beta iota delta
      [FileMonitorHandler.dispatch FileMonitorHandler.on_created
       FileMonitorHandler.on_modified FileMonitorHandler.on_deleted
       FileMonitorHandler.on_moved event_type is_directory src_path dest_path
       negb String.append CREATED_ICON MODIFIED_ICON DELETED_ICON MOVED_ICON]
      in H;
    try discriminate H;
    (split; [reflexivity|]); intros Hk; try congruence.
Qed.

Lemma record_determines_event_witness :
  let e1 := {| event_type := Deleted; src_path := "/etc/passwd";
               dest_path := ""; is_directory := false |} in
  let e2 := {| event_type := Deleted; src_path := "/etc/passwd";
               dest_path := "/tmp/x"; is_directory := false |} in
  event_type e1 = event_type e2 /\
  (event_type e1 <> Moved -> src_path e1 = src_path e2).
Proof.
  apply record_determines_event; reflexivity.
Defined.

(** X14.  None of the directories [main] puts under watch contains
    [LOG_FILE] ([/var] is not among the candidates): the monitor's own
    writes to its log are not events it would log. *)
Theorem live_log_is_not_watched (path_exists : string -> bool) (p : string) :
  p ∈ get_existing_paths path_exists ->
  String.prefix (p ++ "/") LOG_FILE = false.
Proof.
  unfold get_existing_paths. intros H.
  apply existing_among_elem in H as [H _]. unfold candidate_paths in H.
  repeat (apply elem_of_cons in H as [-> | H]; [reflexivity|]).
  inversion H.
Qed.

Lemma live_log_is_not_watched_witness :
  String.prefix ("/etc" ++ "/") LOG_FILE = false.
Proof.
  apply (live_log_is_not_watched (fun p => String.eqb p "/etc") "/etc").
  vm_compute. left.
Defined.

(** ** A rotation that no handler disturbs *)

Module InterleavingAlone.
Import Interleaving.

Section Alone.

Variable bufsize : nat.
Variable notice : segment.
Hypothesis bufsize_pos : (0 < bufsize)%nat.

Lemma run_app (a b : list action) (s : state) :
  run bufsize notice (a ++ b) s = run bufsize notice b (run bufsize notice a s).
Proof. revert s. induction a as [|x a IH]; intros s; [reflexivity | apply IH]. Qed.

Lemma run_appends (l : list segment) (s : state) :
  run bufsize notice (map Append l) s =
  {| live := (live s ++ l)%list; archive := archive s; at_pc := at_pc s |}.
Proof.
  revert s. induction l as [|x l IH]; intros s; cbn [map run].
  - rewrite app_nil_r. now destruct s.
  - rewrite IH. cbn [step live archive at_pc]. now rewrite <- app_assoc.
Qed.

Lemma run_finished (k : nat) (s : state) :
  at_pc s = Finished -> run bufsize notice (repeat Rotate k) s = s.
Proof.
  intros H. induction k as [|k IH]; [reflexivity|].
  cbn [repeat run step]. unfold rotate. now rewrite H.
Qed.

Lemma run_from_copied (k : nat) (lv ar : list segment) :
  at_pc (run bufsize notice (repeat Rotate k)
           {| live := lv; archive := ar; at_pc := Copied |}) = Finished ->
  run bufsize notice (repeat Rotate k)
    {| live := lv; archive := ar; at_pc := Copied |}
  = {| live := [notice]; archive := ar; at_pc := Finished |}.
Proof.
  destruct k as [|[|k]]; try discriminate. intros _.
  cbn [repeat run step]. unfold rotate. cbn [at_pc live archive].
  now apply run_finished.
Qed.

Lemma run_from_copying (k : nat) :
  forall (offset : nat) (lv : list segment),
    (offset <= length lv)%nat ->
    at_pc (run bufsize notice (repeat Rotate k)
             {| live := lv; archive := take offset lv;
                at_pc := Copying offset |}) = Finished ->
    run bufsize notice (repeat Rotate k)
      {| live := lv; archive := take offset lv; at_pc := Copying offset |}
    = {| live := [notice]; archive := lv; at_pc := Finished |}.
Proof.
  induction k as [|k IH]; intros offset lv Hle; [discriminate|].
  cbn [repeat run step]. unfold rotate. cbn [at_pc live archive].
  destruct (take bufsize (drop offset lv)) as [|x buf] eqn:E.
  - rewrite (InterleavingFacts.read_at_end bufsize bufsize_pos offset lv E Hle).
    apply run_from_copied.
  - rewrite <- E.
    destruct (InterleavingFacts.read_advances bufsize bufsize_pos offset lv
                Hle)
      as [-> Hle'].
    now apply IH.
Qed.

End Alone.

(** X15.  When the handlers append only before the rotation starts and
    after it has finished, no record is lost: the archive holds what the
    live log held at the start followed by the records appended before, and
    the live log holds the notice followed by the records appended after. *)
Theorem undisturbed_rotation_loses_nothing
  (bufsize : nat) (notice : segment) (k : nat)
  (live0 before after : list segment) :
  (0 < bufsize)%nat ->
  let s := run bufsize notice
             (map Append before ++ repeat Rotate k ++ map Append after)
             (start live0) in
  at_pc s = Finished ->
  archive s = (live0 ++ before)%list /\
  live s = notice :: after /\
  lost bufsize notice
    (map Append before ++ repeat Rotate k ++ map Append after) (start live0)
  = [].
Proof.
  intros Hpos s Hfin. subst s.
  rewrite !run_app, !run_appends in Hfin. cbn [at_pc start live archive] in Hfin.
  destruct k as [|k]; [discriminate|].
  cbn [repeat run step] in Hfin. unfold rotate in Hfin.
  cbn [at_pc live archive] in Hfin.
  pose proof (run_from_copying bufsize notice Hpos k 0 (live0 ++ before)%list
                ltac:(cbn; lia) Hfin) as Hrun.
  assert (Hstate : run bufsize notice (repeat Rotate (S k))
                     (run bufsize notice (map Append before) (start live0))
                   = {| live := [notice]; archive := (live0 ++ before)%list;
                        at_pc := Finished |}).
  { rewrite run_appends. cbn [repeat run step start live archive at_pc].
    unfold rotate. cbn [at_pc live archive]. exact Hrun. }
  rewrite !run_app, Hstate, run_appends. cbn [live archive].
  split; [reflexivity|]. split; [reflexivity|].
  pose proof (InterleavingFacts.run_consistent bufsize notice Hpos
                (map Append before ++ repeat Rotate (S k) ++ map Append after)
                (start live0) live0 []) as Hc.
  rewrite !run_app, Hstate, run_appends in Hc.
  unfold consistent in Hc. cbn [at_pc live archive app] in Hc.
  specialize (Hc ltac:(now cbn)).
  pose proof (InterleavingFacts.written_length bufsize notice
                (map Append before ++ repeat Rotate (S k) ++ map Append after)
                (start live0)) as Hw.
  rewrite !run_app, Hstate, run_appends in Hw.
  cbn [at_pc start notices] in Hw.
  apply (f_equal length) in Hc. rewrite !length_app in Hc. cbn [length] in Hc.
  assert (Happ : forall a b c, appended (map Append a ++ repeat Rotate c
                                          ++ map Append b) = (a ++ b)%list).
  { intros a b c. induction a as [|x a IHa]; cbn; [|now rewrite IHa].
    induction c as [|c IHc]; cbn; [|exact IHc].
    induction b as [|y b IHb]; cbn; [reflexivity | now rewrite IHb]. }
  rewrite Happ, length_app in Hw.
  apply length_zero_iff_nil. lia.
Qed.

Lemma undisturbed_rotation_loses_nothing_witness :
  let sched := (map Append [r1; r2] ++ repeat Rotate 6 ++ map Append [r3])%list in
  let s := run 1 sample_notice sched (start []) in
  archive s = ([] ++ [r1; r2])%list /\
  live s = sample_notice :: [r3] /\
  lost 1 sample_notice sched (start []) = [].
Proof.
  apply (undisturbed_rotation_loses_nothing 1 sample_notice 6 [] [r1; r2] [r3]).
  - lia.
  - reflexivity.
Defined.

End InterleavingAlone.

(** ** The sweep after the rotation of the same pass *)

(** X16.  The sweep that follows a successful rotation and the sleep never
    deletes what that rotation wrote: when [delete_old_logs] ends, normally
    or not, the archive of the pass is there as the rotation left it, and
    [LOG_FILE] is still there. *)
Theorem sweep_spares_files_of_the_pass
  (flt : option rotation_fault) (denied : string -> option exn)
  (w w1 w2 : world) (old : node) :
  stat LOG_FILE w = Some old ->
  compress_log flt w = Return w1 ->
  time_sleep COMPRESS_INTERVAL w1 = Return w2 ->
  stat (compressed_log_name w) (final_world (delete_old_logs denied w2))
    = Some (regular (w_time w) [GzStream (n_data old)]) /\
  stat LOG_FILE (final_world (delete_old_logs denied w2)) <> None.
Proof.
  intros Hold Hc Hs.
  apply compress_log_world in Hc as (old' & Hold' & _ & ->).
  rewrite Hold in Hold'. injection Hold' as <-.
  unfold time_sleep in Hs. injection Hs as <-.
  set (w2 := set_time _ _).
  assert (Ht2 : w_time w2 = w_time w + COMPRESS_INTERVAL) by reflexivity.
  assert (Hrecent : forall d, recent (w_time w2) (regular (w_time w) d)).
  { intros d. unfold recent, regular. cbn [n_mtime]. rewrite Ht2.
    unfold retention_window, LOG_RETENTION_DAYS, COMPRESS_INTERVAL. lia. }
  rewrite stat_archive, stat_live_log. unfold delete_old_logs. split.
  - destruct (recent_entry_kept_by_loop denied (listdir w2) w2
                (archive_basename w)
                (regular (w_time w) [GzStream (n_data old)]))
      as (n' & Hl' & _ & Hsame).
    + unfold w2. cbn [w_var_log set_time set_var_log].
      rewrite !dir_lookup_write_ne by reflexivity.
      apply dir_lookup_write_eq.
    + apply Hrecent.
    + rewrite Hl'. f_equal. apply Hsame.
      intros H. pose proof (archive_is_not_live_log w) as Hne.
      rewrite H, String.eqb_refl in Hne. discriminate.
  - destruct (recent_entry_kept_by_loop denied (listdir w2) w2 LOG_BASENAME
                (regular (w_time w) [rotation_notice w]))
      as (n' & Hl' & _ & _).
    + unfold w2. cbn [w_var_log set_time set_var_log].
      apply dir_lookup_write_eq.
    + apply Hrecent.
    + now rewrite Hl'.
Qed.

Lemma sweep_spares_files_of_the_pass_witness :
  let w1 := final_world (compress_log None sample_world) in
  let w2 := final_world (time_sleep COMPRESS_INTERVAL w1) in
  stat (compressed_log_name sample_world)
       (final_world (delete_old_logs no_denial w2))
    = Some (regular (w_time sample_world)
              [GzStream [Line 999980 "✨ Created: /etc/motd";
                         Line 999990 "🔄 Modified: /etc/motd"]]) /\
  stat LOG_FILE (final_world (delete_old_logs no_denial w2)) <> None.
Proof.
  apply (sweep_spares_files_of_the_pass None no_denial sample_world
           (final_world (compress_log None sample_world))
           (final_world (time_sleep COMPRESS_INTERVAL
                           (final_world (compress_log None sample_world))))
           (regular 999990 [Line 999980 "✨ Created: /etc/motd";
                            Line 999990 "🔄 Modified: /etc/motd"]));
    reflexivity.
Defined.

(** ** What a rotation cannot lose *)

Module InterleavingInitial.
Import Interleaving.

Lemma step_keeps_initial (bufsize : nat) (notice : segment)
  (live0 : list segment) (a : action) (s : state) :
  (0 < bufsize)%nat ->
  keeps_initial live0 s -> keeps_initial live0 (step bufsize notice a s).
Proof.
  intros Hpos. unfold keeps_initial. destruct s as [lv ar p].
  destruct a as [l|]; destruct p as [|offset| | |]; cbn; try tauto.
  - intros H. now apply prefix_app_r.
  - intros (H & -> & Hle). rewrite length_app, take_app_le by assumption.
    repeat split; [now apply prefix_app_r | lia].
  - intros H. repeat split; [assumption | cbn; lia].
  - intros (H & -> & Hle).
    destruct (take bufsize (drop offset lv)) as [|x buf] eqn:E; cbn.
    + now rewrite (InterleavingFacts.read_at_end bufsize Hpos offset lv E Hle).
    + rewrite <- E.
      destruct (InterleavingFacts.read_advances bufsize Hpos offset lv Hle)
        as [H1 H2].
      rewrite E in *. repeat split; assumption.
Qed.

Lemma run_keeps_initial (bufsize : nat) (notice : segment)
  (live0 : list segment) (sched : list action) :
  (0 < bufsize)%nat ->
  forall s, keeps_initial live0 s ->
            keeps_initial live0 (run bufsize notice sched s).
Proof.
  intros Hpos. induction sched as [|a sched IH]; intros s H; [exact H|].
  cbn [run]. apply IH. now apply step_keeps_initial.
Qed.

(** X17.  Whatever the handlers append and whenever they do, a rotation that
    has got to its truncation has archived every record that was in the live
    log when it started: the archive begins with them, in their order.  Only
    records appended while the rotation runs can be lost. *)
Theorem rotation_archives_what_was_there
  (bufsize : nat) (notice : segment) (sched : list action)
  (live0 : list segment) :
  (0 < bufsize)%nat ->
  truncation_done (at_pc (run bufsize notice sched (start live0))) = true ->
  live0 `prefix_of` archive (run bufsize notice sched (start live0)).
Proof.
  intros Hpos Hdone.
  pose proof (run_keeps_initial bufsize notice live0 sched Hpos (start live0))
    as H.
  unfold keeps_initial in H. cbn [start at_pc live] in H.
  specialize (H ltac:(reflexivity)).
  destruct (at_pc (run bufsize notice sched (start live0)));
    try discriminate; exact H.
Qed.

Lemma rotation_archives_what_was_there_witness :
  [r1] `prefix_of`
  archive (run 8 sample_notice
             [Rotate; Append r2; Rotate; Rotate; Append r3; Rotate]
             (start [r1])).
Proof.
  apply (rotation_archives_what_was_there 8 sample_notice
           [Rotate; Append r2; Rotate; Rotate; Append r3; Rotate] [r1]).
  - lia.
  - reflexivity.
Defined.

End InterleavingInitial.

(** ** The sweep and the live log itself *)

(** Either nothing of a listing is expired, or there is a first name in it
    that is. *)
Lemma first_expired (t : Z) (w : world) (names : list string) :
  (forall g, g ∈ names -> expired t w g = false) \/
  exists a g b,
    names = (a ++ g :: b)%list /\
    (forall x, x ∈ a -> expired t w x = false) /\
    expired t w g = true.
Proof.
  induction names as [|x names IH].
  - left. intros g Hg. inversion Hg.
  - destruct (expired t w x) eqn:Ex.
    + right. exists [], x, names. repeat split; [|exact Ex].
      intros y Hy. inversion Hy.
    + destruct IH as [IH | (a & g & b & -> & Ha & Hg)].
      * left. intros g Hg. apply elem_of_cons in Hg as [-> | Hg]; auto.
      * right. exists (x :: a), g, b. repeat split; [|exact Hg].
        intros y Hy. apply elem_of_cons in Hy as [-> | Hy]; auto.
Qed.

(** C9, as the code has it.  The live log's own name starts with the prefix
    the sweep selects by.  A live log whose modification time is more than
    the retention time before the run is deleted by that run if and only if
    no file listed before it is expired (a regular file with the prefix and
    past the retention time) and the system does not refuse to delete the
    live log.  An expired file listed before it is either deleted, and the
    record of the deletion makes the live log new, or not deleted, and the
    error ends the run before the live log is reached. *)
Theorem sweep_deletes_stale_live_log
  (denied : string -> option exn) (w : world) (names1 names2 : list string)
  (n : node) :
  listdir w = (names1 ++ LOG_BASENAME :: names2)%list ->
  LOG_BASENAME ∉ names1 ->
  stat LOG_FILE w = Some n ->
  n_isfile n = true ->
  n_mtime n < w_time w - retention_window ->
  startswith LOG_BASENAME "file_changes.log" = true /\
  (stat LOG_FILE (final_world (delete_old_logs denied w)) = None <->
   (forall g, g ∈ names1 -> expired (w_time w) w g = false) /\
   denied LOG_FILE = None).
Proof.
  intros Hls Hfirst Hn Hf Hold. split; [reflexivity|].
  rewrite stat_live_log in Hn.
  assert (He : expired (w_time w) w LOG_BASENAME = true).
  { rewrite (expired_of_entry _ _ _ n) by (assumption || reflexivity).
    apply Z.gtb_lt. lia. }
  unfold delete_old_logs. rewrite Hls, sweep_loop_app, stat_live_log.
  destruct (first_expired (w_time w) w names1)
    as [Hnone | (a & g & b & -> & Ha & Hg)].
  - rewrite sweep_loop_nothing_expired by assumption.
    cbn [bind sweep_loop]. rewrite sweep_one_cases, He. unfold os_remove.
    change (path_join "/var/log" LOG_BASENAME) with LOG_FILE.
    destruct (denied LOG_FILE) as [e|] eqn:Hden.
    + cbn [bind final_world]. rewrite Hn.
      split; [discriminate | intros [_ H]; discriminate H].
    + change (var_log_key LOG_FILE) with (Some LOG_BASENAME).
      cbv beta iota. rewrite Hn. cbn [bind].
      split; [intros _; now split|]. intros _.
      apply sweep_loop_lookup_None, log_emit_lookup_None.
      cbn [w_var_log set_var_log]. apply dir_lookup_remove_eq.
  - split.
    2:{ intros [Hall _]. rewrite Hall in Hg; [discriminate|].
        apply elem_of_app. right. now left. }
    intros Hgone. exfalso.
    assert (Hgl : String.eqb g LOG_BASENAME = false).
    { apply String.eqb_neq. intros ->. apply Hfirst.
      apply elem_of_app. right. now left. }
    rewrite sweep_loop_app, sweep_loop_nothing_expired in Hgone by assumption.
    cbn [bind] in Hgone.
    change (sweep_loop denied (w_time w) (g :: b) w)
      with (sweep_one denied (w_time w) g w >>> sweep_loop denied (w_time w) b)
      in Hgone.
    destruct (sweep_one_inv denied (w_time w) g w)
      as [[Hno _]|[[_ [e E]]|[_ E]]]; [congruence| |];
      rewrite E in Hgone; cbn [bind final_world] in Hgone.
    + congruence.
    + set (w0 := set_var_log (dir_remove g (w_var_log w)) w) in *.
      set (msg := "Deleted old log file: " ++ path_join "/var/log" g) in *.
      assert (Hl0 : dir_lookup LOG_BASENAME (w_var_log w0) = Some n).
      { unfold w0. cbn [w_var_log set_var_log].
        now rewrite dir_lookup_remove_ne. }
      assert (Hw1 : logging_info msg w0 =
                    set_var_log
                      (dir_write LOG_BASENAME
                         (regular (w_time w)
                            (n_data n ++ [Line (w_time w) msg])%list)
                         (w_var_log w0)) w0).
      { unfold logging_info, log_emit. now rewrite Hl0, Hf. }
      rewrite Hw1, <- sweep_loop_app in Hgone.
      destruct (recent_entry_kept_by_loop denied
                  (b ++ LOG_BASENAME :: names2)%list
                  (set_var_log
                     (dir_write LOG_BASENAME
                        (regular (w_time w)
                           (n_data n ++ [Line (w_time w) msg])%list)
                        (w_var_log w0)) w0)
                  LOG_BASENAME
                  (regular (w_time w) (n_data n ++ [Line (w_time w) msg])%list))
        as (n' & Hl' & _).
      * cbn [w_var_log set_var_log]. apply dir_lookup_write_eq.
      * unfold recent, regular. cbn [n_mtime w_time set_var_log w0].
        pose proof retention_window_nonneg. lia.
      * cbn [w_time set_var_log w0] in Hl'. congruence.
Qed.

Lemma sweep_deletes_stale_live_log_witness :
  startswith LOG_BASENAME "file_changes.log" = true /\
  (stat LOG_FILE
     (final_world (delete_old_logs no_denial stale_live_after_recent_world))
   = None <->
   (forall g, g ∈ ["file_changes.log_20240516_100000.gz"; "syslog"] ->
              expired (w_time stale_live_after_recent_world)
                stale_live_after_recent_world g = false) /\
   no_denial LOG_FILE = None).
Proof.
  apply (sweep_deletes_stale_live_log no_denial stale_live_after_recent_world
           ["file_changes.log_20240516_100000.gz"; "syslog"]
           ["file_changes.log_20240401_100000.gz"]
           (regular (1715940000 - 30 * day) [Line 1713348000 "c"])).
  - reflexivity.
  - intros H. repeat (apply elem_of_cons in H as [H|H]; [discriminate|]).
    inversion H.
  - reflexivity.
  - reflexivity.
  - reflexivity.
Defined.

(** In that world a recent archive and a file of another program are listed
    before the stale live log: the run deletes the live log, and the later
    deletion of an old archive is logged to a file that is no longer in the
    directory. *)
Example stale_live_log_deleted_after_recent_files :
  let w' := final_world
              (delete_old_logs no_denial stale_live_after_recent_world) in
  listdir w' = ["file_changes.log_20240516_100000.gz"; "syslog"] /\
  stat LOG_FILE w' = None.
Proof. split; reflexivity. Qed.

(** A refused deletion before the live log is reached: nothing is deleted,
    the run ends with the error, and the stale live log stays although the
    system would have let it go. *)
Example stale_live_log_kept_after_refused_deletion :
  let deny := fun path =>
    if String.eqb path "/var/log/file_changes.log_20240401_100000.gz"
    then Some PermissionError else None in
  raised (delete_old_logs deny stale_live_last_world) = Some PermissionError /\
  deny LOG_FILE = None /\
  listdir (final_world (delete_old_logs deny stale_live_last_world))
  = listdir stale_live_last_world.
Proof. repeat split. Qed.

(** The claim C9 fails when the run deletes another file first: the record
    of that deletion goes to the live log and makes it new.  Here the live
    log is thirty days old, an archive of forty-six days is listed before
    it, and after the run the live log is still there. *)
Lemma stale_live_log_kept_after_earlier_deletion :
  exists n w',
    stat LOG_FILE stale_live_last_world = Some n /\
    n_isfile n = true /\
    w_time stale_live_last_world - n_mtime n > LOG_RETENTION_DAYS * 86400 /\
    delete_old_logs no_denial stale_live_last_world = Return w' /\
    stat LOG_FILE w' =
      Some (regular 1715940000
              [Line 1713348000 "c";
               Line 1715940000
                 "Deleted old log file: /var/log/file_changes.log_20240401_100000.gz"])
    /\ stat LOG_FILE w' <> None.
Proof.
  eexists; eexists.
  repeat (split; [reflexivity|]). discriminate.
Qed.

